(** * Rover control and status nodes: a shallow embedding

    Two ROS nodes are modelled here.

    - [IrisController] (rover2_control/iris_controller.py): polls twenty
      Modbus registers of the Iris board every tick, publishes a drive
      command and a board status, and destroys itself when the board has
      not been seen for a second.
    - [SystemStatuses] (rover2_status/system_statuses_node.py): keeps one
      message per status category, refreshes them every tick and publishes
      the ones that differ from the values published last.

    Python integers are [Z], Python floats are IEEE binary64 values
    ([float], the kernel's primitive floats), wall-clock readings of
    [time()] are exact rational seconds ([Q]), lists are [list].  An
    exception raised by the source is a value of [exn].  In the controller
    node a method that can raise runs in the monad [M] below; in the
    status node a method that can raise returns the node as it leaves it
    together with the exception that escapes it, if one does. *)

From Stdlib Require Import String ZArith QArith Bool List Lia Lqa.
From Stdlib Require Import Floats Uint63 Sorted.
Import ListNotations.

Set Implicit Arguments.

(** ** Python values *)

(** [float(z)] for a Python integer [z]; exact while [|z| < 2^53]. *)
Definition float_of_int (z : Z) : float :=
  if (z <? 0)%Z
  then PrimFloat.opp (PrimFloat.of_uint63 (Uint63.of_Z (- z)))
  else PrimFloat.of_uint63 (Uint63.of_Z z).

(** Python's [a != b] on floats (IEEE: a NaN differs from itself). *)
Definition float_ne (a b : float) : bool := negb (PrimFloat.eqb a b).

(** Python's [a != b] on integers and on booleans. *)
Definition int_ne (a b : Z) : bool := negb (a =? b)%Z.
Definition bool_ne (a b : bool) : bool := xorb a b.

(** [a > b] on clock readings. *)
Definition Qgtb (a b : Q) : bool := negb (Qle_bool a b).

(** The exceptions the modelled code can meet. *)
Inductive exn : Type :=
| IndexError      (* list index out of range *)
| TransportError  (* minimalmodbus: no answer, bad checksum, ... *)
| ValueError      (* int() or float() of text that is no number *)
| TypeError       (* int() or float() of None; bytes.replace() given str *)
| AttributeError. (* an attribute the object does not have *)

(** ** The Iris controller node *)
Module IrisController.

Open Scope Z_scope.

Definition DEFAULT_HERTZ : Z := 10.
Definition COMMUNICATIONS_TIMEOUT : Q := 15 # 100.  (* seconds *)

(** [SBUS_VALUES] *)
Definition SBUS_MAX : Z := 1811.
Definition SBUS_MID : Z := 991.
Definition SBUS_MIN : Z := 172.
Definition SBUS_RANGE : float := 820%float.
Definition SBUS_DEADZONE : Z := 5.

(** [MODBUS_REGISTERS]: the keys, in the order of the dictionary. *)
Inductive register_name : Type :=
| LEFT_STICK_Y_AXIS | RIGHT_STICK_Y_AXIS | RIGHT_STICK_X_AXIS | LEFT_STICK_X_AXIS
| LEFT_POT | S1_POT | S2_POT | RIGHT_POT
| SA_SWITCH | SB_SWITCH | SC_SWITCH | SD_SWITCH
| SE_SWITCH | SF_SWITCH | SG_SWITCH | SH_SWITCH
| VOLTAGE_24V | VOLTAGE_5V | USB_VOLTAGE_5V | VOLTAGE_3V3.

Definition MODBUS_REGISTERS (r : register_name) : nat :=
  match r with
  | LEFT_STICK_Y_AXIS => 0 | RIGHT_STICK_Y_AXIS => 1
  | RIGHT_STICK_X_AXIS => 2 | LEFT_STICK_X_AXIS => 3
  | LEFT_POT => 4 | S1_POT => 5 | S2_POT => 6 | RIGHT_POT => 7
  | SA_SWITCH => 8 | SB_SWITCH => 9 | SC_SWITCH => 10 | SD_SWITCH => 11
  | SE_SWITCH => 12 | SF_SWITCH => 13 | SG_SWITCH => 14 | SH_SWITCH => 15
  | VOLTAGE_24V => 16 | VOLTAGE_5V => 17 | USB_VOLTAGE_5V => 18
  | VOLTAGE_3V3 => 19
  end%nat.

Definition MODBUS_REGISTERS_keys : list register_name :=
  [ LEFT_STICK_Y_AXIS; RIGHT_STICK_Y_AXIS; RIGHT_STICK_X_AXIS; LEFT_STICK_X_AXIS;
    LEFT_POT; S1_POT; S2_POT; RIGHT_POT;
    SA_SWITCH; SB_SWITCH; SC_SWITCH; SD_SWITCH;
    SE_SWITCH; SF_SWITCH; SG_SWITCH; SH_SWITCH;
    VOLTAGE_24V; VOLTAGE_5V; USB_VOLTAGE_5V; VOLTAGE_3V3 ].

(** [len(MODBUS_REGISTERS)], the number of registers asked of the board. *)
Definition register_count : nat := length MODBUS_REGISTERS_keys.

(** [REGISTER_STATE_MAPPING] *)
Inductive state_name : Type := IGNORE_CONTROL | DRIVE_VS_ARM.

Definition REGISTER_STATE_MAPPING (n : state_name) : register_name :=
  match n with
  | IGNORE_CONTROL => SF_SWITCH
  | DRIVE_VS_ARM => SE_SWITCH
  end.

Definition IRIS_LAST_SEEN_TIMEOUT : Q := 1.  (* seconds *)

(** [DriveCommandMessage]: the fields the node writes
    ([drive_twist.linear.x] and [drive_twist.angular.z] of the twist). *)
Record DriveCommandMessage : Type := {
  controller_present : bool;
  ignore_drive_control : bool;
  drive_twist_linear_x : float;
  drive_twist_angular_z : float
}.

(** [IrisStatusMessage] *)
Record IrisStatusMessage : Type := {
  iris_connected : bool;
  voltage_24v : Z
}.

(** What a tick does to the outside: messages published and lines printed,
    in the order they happen. *)
Inductive effect : Type :=
| Publish_drive_command (m : DriveCommandMessage)
| Publish_iris_status (m : IrisStatusMessage)
| Print_Arm
| Print_error (e : exn)
| Print_not_seen
| Destroy_node.

(** The attributes of the node that [main_loop] reads or writes. *)
Record node : Type := {
  registers : list Z;
  self_iris_connected : bool;
  iris_last_seen_time : Q
}.

(** What the outside gives one tick: the answer of
    [self.iris.read_registers(0, len(MODBUS_REGISTERS))], [None] when it
    raises, and the two readings of [time()], after a successful read and
    at the last-seen check.  The library returns as many registers as were
    asked for; the model does not assume it. *)
Record tick_input : Type := {
  bus_read : option (list Z);
  time_after_read : Q;
  time_at_check : Q
}.

(** *** State, output and exceptions in one monad *)

Inductive completion (A : Type) : Type :=
| Returned (a : A)
| Raised (e : exn).
Arguments Raised {A} e.

Record run (A : Type) : Type := {
  final : node;
  effects : list effect;
  completes : completion A
}.

Definition M (A : Type) : Type := node -> run A.

Definition ret {A} (a : A) : M A :=
  fun s => {| final := s; effects := []; completes := Returned a |}.

Definition bind {A B} (m : M A) (k : A -> M B) : M B :=
  fun s =>
    let r := m s in
    match completes r with
    | Returned a =>
        let r' := k a (final r) in
        {| final := final r'; effects := effects r ++ effects r';
           completes := completes r' |}
    | Raised e =>
        {| final := final r; effects := effects r; completes := Raised e |}
    end.

Definition raise {A} (e : exn) : M A :=
  fun s => {| final := s; effects := []; completes := Raised e |}.

Definition emit (x : effect) : M unit :=
  fun s => {| final := s; effects := [x]; completes := Returned tt |}.

Definition get : M node :=
  fun s => {| final := s; effects := []; completes := Returned s |}.

Definition put (s : node) : M unit :=
  fun _ => {| final := s; effects := []; completes := Returned tt |}.

(** [try: m  except Exception as e: h e] *)
Definition try_except {A} (m : M A) (h : exn -> M A) : M A :=
  fun s =>
    let r := m s in
    match completes r with
    | Returned a => r
    | Raised e =>
        let r' := h e (final r) in
        {| final := final r'; effects := effects r ++ effects r';
           completes := completes r' |}
    end.

Notation "x <- m ;; k" := (bind m (fun x => k))
  (at level 61, m at next level, right associativity).
Notation "m ;;; k" := (bind m (fun _ => k))
  (at level 61, right associativity).

(** [self.registers[MODBUS_REGISTERS[r]]] *)
Definition register (r : register_name) : M Z :=
  s <- get ;;
  match nth_error (registers s) (MODBUS_REGISTERS r) with
  | Some v => ret v
  | None => raise IndexError
  end.

(** [self.iris.read_registers(0, len(MODBUS_REGISTERS))] *)
Definition iris_read_registers (i : tick_input) : M (list Z) :=
  match bus_read i with
  | Some regs => ret regs
  | None => raise TransportError
  end.

Definition read_registers (i : tick_input) : M unit :=
  try_except
    (regs <- iris_read_registers i ;;
     s <- get ;;
     put {| registers := regs;
            self_iris_connected := self_iris_connected s;
            iris_last_seen_time := time_after_read i |})
    (fun _ =>
       s <- get ;;
       put {| registers := registers s;
              self_iris_connected := false;
              iris_last_seen_time := iris_last_seen_time s |}).

(** [(axis - SBUS_MID) / SBUS_RANGE] *)
Definition normalize (axis : Z) : float :=
  PrimFloat.div (float_of_int (axis - SBUS_MID)) SBUS_RANGE.

Definition broadcast_drive_if_current_mode : M unit :=
  mode <- register (REGISTER_STATE_MAPPING DRIVE_VS_ARM) ;;
  if mode <? SBUS_MID then
    left_y_axis <- register LEFT_STICK_Y_AXIS ;;
    right_y_axis <- register RIGHT_STICK_Y_AXIS ;;
    command <-
      (if (left_y_axis =? 0) && (right_y_axis =? 0) then
         ret {| controller_present := false;
                ignore_drive_control := true;
                drive_twist_linear_x := 0%float;
                drive_twist_angular_z := 0%float |}
       else
         let left := normalize left_y_axis in
         let right := normalize right_y_axis in
         ignore <- register (REGISTER_STATE_MAPPING IGNORE_CONTROL) ;;
         ret {| controller_present := true;
                ignore_drive_control := SBUS_MID <? ignore;
                drive_twist_linear_x :=
                  PrimFloat.div (PrimFloat.add left right) 2%float;
                drive_twist_angular_z :=
                  PrimFloat.div (PrimFloat.sub right left) 2%float |}) ;;
    emit (Publish_drive_command command)
  else ret tt.

Definition broadcast_arm_if_current_mode : M unit :=
  mode <- register (REGISTER_STATE_MAPPING DRIVE_VS_ARM) ;;
  if SBUS_MIN + SBUS_DEADZONE <? mode then emit Print_Arm else ret tt.

Definition broadcast_iris_status : M unit :=
  voltage <- register VOLTAGE_24V ;;
  emit (Publish_iris_status {| iris_connected := true; voltage_24v := voltage |}).

(** The method returns [None] on both of its paths: after
    [self.destroy_node()] the [return] hands back to the executor what the
    end of the method hands back otherwise. *)
Definition main_loop (i : tick_input) : M unit :=
  try_except
    (read_registers i ;;;
     broadcast_drive_if_current_mode ;;;
     broadcast_arm_if_current_mode ;;;
     broadcast_iris_status)
    (fun error => emit (Print_error error)) ;;;
  s <- get ;;
  if Qgtb (time_at_check i - iris_last_seen_time s) IRIS_LAST_SEEN_TIMEOUT then
    emit Print_not_seen ;;;
    emit Destroy_node ;;;
    ret tt
  else ret tt.

(** The node as [__init__] leaves it, at clock reading [now]. *)
Definition init (now : Q) : node :=
  {| registers := []; self_iris_connected := false; iris_last_seen_time := now |}.

(** The messages among the effects of a tick. *)
Definition drive_commands (l : list effect) : list DriveCommandMessage :=
  flat_map (fun x => match x with Publish_drive_command m => [m] | _ => [] end) l.

Definition iris_statuses (l : list effect) : list IrisStatusMessage :=
  flat_map (fun x => match x with Publish_iris_status m => [m] | _ => [] end) l.

Definition prints_Arm (l : list effect) : bool :=
  existsb (fun x => match x with Print_Arm => true | _ => false end) l.

(** The three broadcasts of [main_loop], after the read. *)
Definition broadcasts : M unit :=
  broadcast_drive_if_current_mode ;;;
  broadcast_arm_if_current_mode ;;;
  broadcast_iris_status.

(** What the last-seen check of [main_loop] adds to the effects. *)
Definition closing (over : bool) : list effect :=
  if over then [Print_not_seen; Destroy_node] else [].

(** The command [broadcast_drive_if_current_mode] builds from the two
    sticks and the ignore switch. *)
Definition drive_command (left_y_axis right_y_axis ignore : Z) : DriveCommandMessage :=
  if (left_y_axis =? 0) && (right_y_axis =? 0) then
    {| controller_present := false;
       ignore_drive_control := true;
       drive_twist_linear_x := 0%float;
       drive_twist_angular_z := 0%float |}
  else
    {| controller_present := true;
       ignore_drive_control := SBUS_MID <? ignore;
       drive_twist_linear_x :=
         PrimFloat.div (PrimFloat.add (normalize left_y_axis) (normalize right_y_axis))
                       2%float;
       drive_twist_angular_z :=
         PrimFloat.div (PrimFloat.sub (normalize right_y_axis) (normalize left_y_axis))
                       2%float |}.

(** *** Some registers, ticks and nodes to run the model on *)

(** Left stick at the top, right stick centred, mode switch low. *)
Definition demo_registers : list Z :=
  [1811; 991; 0; 0; 0; 0; 0; 0; 0; 0; 0; 0; 500; 1500; 0; 0; 24; 0; 0; 0].

(** As above, with the mode switch just above the middle. *)
Definition gap_registers : list Z :=
  [1811; 991; 0; 0; 0; 0; 0; 0; 0; 0; 0; 0; 993; 1500; 0; 0; 24; 0; 0; 0].

(** Seventeen registers only, both sticks at zero. *)
Definition short_registers : list Z :=
  [0; 0; 0; 0; 0; 0; 0; 0; 0; 0; 0; 0; 500; 1500; 0; 0; 24].

Definition tick_reading (regs : list Z) : tick_input :=
  {| bus_read := Some regs; time_after_read := 1 # 10; time_at_check := 2 # 10 |}.

Definition demo_tick : tick_input := tick_reading demo_registers.

Definition short_tick : tick_input := tick_reading short_registers.

(** A tick whose read raises, on a node that has read nothing yet. *)
Definition never_read_tick : tick_input :=
  {| bus_read := None; time_after_read := 1 # 10; time_at_check := 2 # 10 |}.

(** The node after one good read at 0.1 s. *)
Definition seen_node : node := final (main_loop demo_tick (init 0)).

(** A read that raises, 0.3 s after the good one. *)
Definition failing_tick : tick_input :=
  {| bus_read := None; time_after_read := 3 # 10; time_at_check := 4 # 10 |}.

(** A read that raises, 1.2 s after the good one. *)
Definition silent_tick : tick_input :=
  {| bus_read := None; time_after_read := 12 # 10; time_at_check := 13 # 10 |}.

(** *** Reading the errors, and the node over many ticks *)

(** The exceptions [main_loop] caught and printed. *)
Definition errors (l : list effect) : list exn :=
  flat_map (fun x => match x with Print_error e => [e] | _ => [] end) l.

(** [self.destroy_node()] is among the effects. *)
Definition destroys (l : list effect) : bool :=
  existsb (fun x => match x with Destroy_node => true | _ => false end) l.

(** How the timer stands after some ticks: it fires again, or it is gone. *)
Inductive tick_end : Type := Continue | Exit.

(** The timer firing tick after tick.  It fires as long as the node is
    there: [destroy_node()] destroys the timer with the node, so the tick
    that calls it is the last one; so is a tick that lets an exception
    out.  What becomes of [rclpy.spin] and of the process after that is
    not the node's code and is not modelled. *)
Record spun : Type := {
  node_left : node;
  spun_effects : list effect;
  ended : tick_end
}.

Fixpoint spin (ticks : list tick_input) (s : node) : spun :=
  match ticks with
  | [] => {| node_left := s; spun_effects := []; ended := Continue |}
  | i :: rest =>
      let r := main_loop i s in
      match completes r with
      | Returned _ =>
          if destroys (effects r)
          then {| node_left := final r; spun_effects := effects r; ended := Exit |}
          else
            let r' := spin rest (final r) in
            {| node_left := node_left r';
               spun_effects := effects r ++ spun_effects r';
               ended := ended r' |}
      | Raised _ => {| node_left := final r; spun_effects := effects r; ended := Exit |}
      end
  end.

(** The board answers with as many registers as were asked for:
    [read_registers(0, 20)] of minimalmodbus returns the twenty registers
    or raises. *)
Definition answers_in_full (i : tick_input) : Prop :=
  forall regs, bus_read i = Some regs -> length regs = register_count.

(** A tick whose read gives enough registers for the status, and whose
    check of the clock comes within the timeout of that read. *)
Definition seen_in_time (i : tick_input) : Prop :=
  exists regs,
    bus_read i = Some regs /\ (17 <= length regs)%nat
    /\ (time_at_check i - time_after_read i <= IRIS_LAST_SEEN_TIMEOUT)%Q.

(** *** Register values, for what is checked value by value *)

(** [lo; lo + 1; ...], [n] values. *)
Fixpoint upto (n : nat) (lo : Z) : list Z :=
  match n with
  | O => []
  | S n' => lo :: upto n' (lo + 1)
  end.

Definition between (lo hi : Z) : list Z := upto (Z.to_nat (hi - lo + 1)) lo.

(** Both sticks at [v]: no turn, and the speed of the one stick. *)
Definition mixes_straight (v : Z) : bool :=
  let c := drive_command v v 0 in
  PrimFloat.Leibniz.eqb (drive_twist_angular_z c) 0%float
  && PrimFloat.Leibniz.eqb (drive_twist_linear_x c) (normalize v).

Definition within_unit (x : float) : bool :=
  PrimFloat.leb (-1)%float x && PrimFloat.leb x 1%float.

Definition mixes_within_unit (l r : Z) : bool :=
  let c := drive_command l r 0 in
  within_unit (drive_twist_linear_x c) && within_unit (drive_twist_angular_z c).

(** The registers of [demo_registers] at the four places the drive command
    reads, and other values everywhere else. *)
Definition busy_registers : list Z :=
  [1811; 991; 7; 8; 9; 10; 11; 12; 13; 14; 15; 16; 500; 1500; 17; 18; 24; 19; 20; 21].

End IrisController.

(** ** The system status node *)
Module SystemStatuses.

Local Open Scope string_scope.

Definition DEFAULT_HERTZ : Z := 10.
Definition MAX_JETSON_UPDATE_HERTZ : Q := 2 # 10.
Definition MAX_IRIS_UPDATE_HERTZ : Q := 2 # 10.

Definition DEFAULT_REQUEST_UPDATE_TOPIC_NAME := "update_requested".
Definition DEFAULT_IRIS_STATUS_TOPIC_NAME := "/rover_control/iris_status".
Definition DEFAULT_BOGIE_LEFT_TOPIC_NAME := "/rover_control/drive_status/left".
Definition DEFAULT_BOGIE_RIGHT_TOPIC_NAME := "/rover_control/drive_status/right".
Definition DEFAULT_BOGIE_REAR_TOPIC_NAME := "/rover_control/drive_status/rear".
Definition DEFAULT_GPS_NMEA_TOPIC_NAME := "/rover_odometry/gps/sentence".

(** [self.system_path_locations] and [self.file_systems_EMMC_NVMe_SSD] *)
Definition system_path_locations : list string :=
  [ "/dev/rover/camera_zed"; "/dev/rover/camera_undercarriage";
    "/dev/rover/camera_chassis"; "/dev/rover/camera_main_navigation" ].

Definition file_systems_EMMC_NVMe_SSD : list string := [ "/"; "/dev/shm" ].

(** *** Messages, one record per status category *)

Record BatteryStatusMessage : Type := { battery_voltage : Z }.

Record CameraStatuses : Type := {
  camera_zed : bool;
  camera_undercarriage : bool;
  camera_chassis : bool;
  camera_main_navigation : bool
}.

Record WheelStatuses : Type := {
  front_left : bool;
  middle_left : bool;
  rear_left : bool;
  front_right : bool;
  middle_right : bool;
  rear_right : bool
}.

Record FrSkyStatus : Type := { frsky_controller_connection_status : bool }.

Record GPSInfo : Type := {
  gps_connected : bool;
  gps_fix : bool;
  num_satellites : Z;
  horizontal_dilution : float;
  kmph : float;
  gps_heading : float
}.

Record JetsonInfo : Type := {
  jetson_cpu : float;
  jetson_ram : float;
  jetson_emmc : float;
  jetson_nvme_ssd : float;
  jetson_gpu_temp : float
}.

Record MiscStatuses : Type := {
  arm_connection_status : bool;
  arm_end_effector_connection_statuses : bool;
  chassis_pan_tilt_connection_status : bool;
  sample_containment_connection_status : bool;
  tower_connection_status : bool
}.

(** The seven messages the node holds.  The node holds them twice: as the
    messages it fills in and publishes ([self.battery_message],
    [self.camera_msg], ...), and, field by field, as the values published
    last (the [self.previous_...] attributes). *)
Record statuses : Type := {
  battery_message : BatteryStatusMessage;
  camera_msg : CameraStatuses;
  wheel_msg : WheelStatuses;
  FrSky_msg : FrSkyStatus;
  GPS_msg : GPSInfo;
  jetson_msg : JetsonInfo;
  misc_msg : MiscStatuses
}.

(** A subscription of the node: the topic and the method called back. *)
Inductive callback : Type :=
| on_update_requested
| iris_status_callback
| left_wheel_callback
| right_wheel_callback
| rear_wheel_callback
| set_gps_info_callback
| frsky_callback.

Record subscription : Type := { topic : string; called_back : callback }.

Record node : Type := {
  manual_update_requested : bool;
  current : statuses;     (* the message attributes *)
  previous : statuses;    (* the previous_... attributes *)
  last_jetson_message_sent : Q;
  last_iris_message_sent : Q;
  subscriptions : list subscription  (* what create_subscription has registered *)
}.

(** What the operating system answers during one refresh:
    [os.path.exists], [psutil.cpu_percent()],
    [psutil.virtual_memory().percent], the node's own [__used_percent_fs]
    (a function of [os.statvfs]), and the bytes that
    [subprocess.check_output("sensors | grep temp", shell=True)] returns,
    [None] when the call raises [CalledProcessError]. *)
Record probe : Type := {
  os_path_exists : string -> bool;
  cpu_percent : float;
  virtual_memory_percent : float;
  used_percent_fs : string -> float;
  sensors_output : option string
}.

(** One firing of the timer: the probe and the four places where
    [main_loop] may read [time()]. *)
Record tick_input : Type := {
  probed : probe;
  time_battery_check : Q;
  time_battery_sent : Q;
  time_jetson_check : Q;
  time_jetson_sent : Q
}.

(** *** Field updates *)

Definition with_current (f : statuses -> statuses) (s : node) : node :=
  {| manual_update_requested := manual_update_requested s;
     current := f (current s);
     previous := previous s;
     last_jetson_message_sent := last_jetson_message_sent s;
     last_iris_message_sent := last_iris_message_sent s;
     subscriptions := subscriptions s |}.

Definition with_previous (f : statuses -> statuses) (s : node) : node :=
  {| manual_update_requested := manual_update_requested s;
     current := current s;
     previous := f (previous s);
     last_jetson_message_sent := last_jetson_message_sent s;
     last_iris_message_sent := last_iris_message_sent s;
     subscriptions := subscriptions s |}.

Definition set_manual_update_requested (b : bool) (s : node) : node :=
  {| manual_update_requested := b;
     current := current s;
     previous := previous s;
     last_jetson_message_sent := last_jetson_message_sent s;
     last_iris_message_sent := last_iris_message_sent s;
     subscriptions := subscriptions s |}.

Definition set_last_jetson_message_sent (t : Q) (s : node) : node :=
  {| manual_update_requested := manual_update_requested s;
     current := current s;
     previous := previous s;
     last_jetson_message_sent := t;
     last_iris_message_sent := last_iris_message_sent s;
     subscriptions := subscriptions s |}.

Definition set_last_iris_message_sent (t : Q) (s : node) : node :=
  {| manual_update_requested := manual_update_requested s;
     current := current s;
     previous := previous s;
     last_jetson_message_sent := last_jetson_message_sent s;
     last_iris_message_sent := t;
     subscriptions := subscriptions s |}.

(** [self.create_subscription(_, topic, callback, 1)] *)
Definition create_subscription (t : string) (c : callback) (s : node) : node :=
  {| manual_update_requested := manual_update_requested s;
     current := current s;
     previous := previous s;
     last_jetson_message_sent := last_jetson_message_sent s;
     last_iris_message_sent := last_iris_message_sent s;
     subscriptions := (subscriptions s ++ [ {| topic := t; called_back := c |} ])%list |}.

Definition set_battery_message (m : BatteryStatusMessage) (r : statuses) : statuses :=
  {| battery_message := m; camera_msg := camera_msg r; wheel_msg := wheel_msg r;
     FrSky_msg := FrSky_msg r; GPS_msg := GPS_msg r; jetson_msg := jetson_msg r;
     misc_msg := misc_msg r |}.

Definition set_camera_msg (m : CameraStatuses) (r : statuses) : statuses :=
  {| battery_message := battery_message r; camera_msg := m; wheel_msg := wheel_msg r;
     FrSky_msg := FrSky_msg r; GPS_msg := GPS_msg r; jetson_msg := jetson_msg r;
     misc_msg := misc_msg r |}.

Definition set_wheel_msg (m : WheelStatuses) (r : statuses) : statuses :=
  {| battery_message := battery_message r; camera_msg := camera_msg r; wheel_msg := m;
     FrSky_msg := FrSky_msg r; GPS_msg := GPS_msg r; jetson_msg := jetson_msg r;
     misc_msg := misc_msg r |}.

Definition set_FrSky_msg (m : FrSkyStatus) (r : statuses) : statuses :=
  {| battery_message := battery_message r; camera_msg := camera_msg r;
     wheel_msg := wheel_msg r; FrSky_msg := m; GPS_msg := GPS_msg r;
     jetson_msg := jetson_msg r; misc_msg := misc_msg r |}.

Definition set_GPS_msg (m : GPSInfo) (r : statuses) : statuses :=
  {| battery_message := battery_message r; camera_msg := camera_msg r;
     wheel_msg := wheel_msg r; FrSky_msg := FrSky_msg r; GPS_msg := m;
     jetson_msg := jetson_msg r; misc_msg := misc_msg r |}.

Definition set_jetson_msg (m : JetsonInfo) (r : statuses) : statuses :=
  {| battery_message := battery_message r; camera_msg := camera_msg r;
     wheel_msg := wheel_msg r; FrSky_msg := FrSky_msg r; GPS_msg := GPS_msg r;
     jetson_msg := m; misc_msg := misc_msg r |}.

Definition set_misc_msg (m : MiscStatuses) (r : statuses) : statuses :=
  {| battery_message := battery_message r; camera_msg := camera_msg r;
     wheel_msg := wheel_msg r; FrSky_msg := FrSky_msg r; GPS_msg := GPS_msg r;
     jetson_msg := jetson_msg r; misc_msg := m |}.

(** *** The refresh of the messages *)

Definition set_arm_connection_status : node -> node :=
  with_current (fun r =>
    let m := misc_msg r in
    set_misc_msg
      {| arm_connection_status := false;
         arm_end_effector_connection_statuses := arm_end_effector_connection_statuses m;
         chassis_pan_tilt_connection_status := chassis_pan_tilt_connection_status m;
         sample_containment_connection_status := sample_containment_connection_status m;
         tower_connection_status := tower_connection_status m |} r).

Definition set_arm_end_effector_connection_statuses : node -> node :=
  with_current (fun r =>
    let m := misc_msg r in
    set_misc_msg
      {| arm_connection_status := arm_connection_status m;
         arm_end_effector_connection_statuses := false;
         chassis_pan_tilt_connection_status := chassis_pan_tilt_connection_status m;
         sample_containment_connection_status := sample_containment_connection_status m;
         tower_connection_status := tower_connection_status m |} r).

Definition set_cameras (p : probe) : node -> node :=
  with_current (set_camera_msg
    {| camera_zed := os_path_exists p (nth 0 system_path_locations "");
       camera_undercarriage := os_path_exists p (nth 1 system_path_locations "");
       camera_chassis := os_path_exists p (nth 2 system_path_locations "");
       camera_main_navigation := os_path_exists p (nth 3 system_path_locations "") |}).

Definition set_sample_containment_connection_status : node -> node :=
  with_current (fun r =>
    let m := misc_msg r in
    set_misc_msg
      {| arm_connection_status := arm_connection_status m;
         arm_end_effector_connection_statuses := arm_end_effector_connection_statuses m;
         chassis_pan_tilt_connection_status := chassis_pan_tilt_connection_status m;
         sample_containment_connection_status := false;
         tower_connection_status := tower_connection_status m |} r).

Definition set_tower_connection_status : node -> node :=
  with_current (fun r =>
    let m := misc_msg r in
    set_misc_msg
      {| arm_connection_status := arm_connection_status m;
         arm_end_effector_connection_statuses := arm_end_effector_connection_statuses m;
         chassis_pan_tilt_connection_status := chassis_pan_tilt_connection_status m;
         sample_containment_connection_status := sample_containment_connection_status m;
         tower_connection_status := false |} r).

Definition set_chassis_pan_tilt_connection_status : node -> node :=
  with_current (fun r =>
    let m := misc_msg r in
    set_misc_msg
      {| arm_connection_status := arm_connection_status m;
         arm_end_effector_connection_statuses := arm_end_effector_connection_statuses m;
         chassis_pan_tilt_connection_status := false;
         sample_containment_connection_status := sample_containment_connection_status m;
         tower_connection_status := tower_connection_status m |} r).

Definition set_jetson_gpu_temp (t : float) : node -> node :=
  with_current (fun r =>
    let m := jetson_msg r in
    set_jetson_msg
      {| jetson_cpu := jetson_cpu m;
         jetson_ram := jetson_ram m;
         jetson_emmc := jetson_emmc m;
         jetson_nvme_ssd := jetson_nvme_ssd m;
         jetson_gpu_temp := t |} r).

(** The four usage figures are written first.  Then [sensors] is called.
    When the call raises [CalledProcessError] the handler stores [-1.0].
    When it returns, what it returns is [bytes], and the next statement
    calls [.replace] on them with [str] arguments: that raises [TypeError]
    whatever the bytes are, before anything is parsed or stored, and
    [except subprocess.CalledProcessError] does not catch it.  So the
    method leaves the node with the temperature it had and lets the
    exception out. *)
Definition set_jetson_usage_information (p : probe) (s : node) : node * option exn :=
  let s :=
    with_current (fun r =>
      set_jetson_msg
        {| jetson_cpu := cpu_percent p;
           jetson_ram := virtual_memory_percent p;
           jetson_emmc := used_percent_fs p (nth 0 file_systems_EMMC_NVMe_SSD "");
           jetson_nvme_ssd := used_percent_fs p (nth 1 file_systems_EMMC_NVMe_SSD "");
           jetson_gpu_temp := jetson_gpu_temp (jetson_msg r) |} r) s in
  match sensors_output p with
  | Some _ => (s, Some TypeError)
  | None => (set_jetson_gpu_temp (-1)%float s, None)
  end.

Definition set_frsky_controller_connection_status : node -> node :=
  create_subscription "/rover_control/command_control/iris_drive" frsky_callback.

(** The refresh: the node as it leaves it, and the exception that escapes
    it, if one does.  An exception of [__set_jetson_usage_information]
    leaves the statement after it undone. *)
Definition pull_new_message_values (p : probe) (s : node) : node * option exn :=
  let s := set_arm_connection_status s in
  let s := set_arm_end_effector_connection_statuses s in
  let s := set_cameras p s in
  let s := set_sample_containment_connection_status s in
  let s := set_tower_connection_status s in
  let s := set_chassis_pan_tilt_connection_status s in
  let r := set_jetson_usage_information p s in
  match snd r with
  | Some e => (fst r, Some e)
  | None => (set_frsky_controller_connection_status (fst r), None)
  end.

(** The node as the refresh leaves it, whether it returns or raises. *)
Definition refreshed (p : probe) (s : node) : node :=
  fst (pull_new_message_values p s).

Definition instantiate_subscribers (s : node) : node :=
  let s := create_subscription DEFAULT_IRIS_STATUS_TOPIC_NAME iris_status_callback s in
  let s := create_subscription DEFAULT_BOGIE_LEFT_TOPIC_NAME left_wheel_callback s in
  let s := create_subscription DEFAULT_BOGIE_RIGHT_TOPIC_NAME right_wheel_callback s in
  let s := create_subscription DEFAULT_BOGIE_REAR_TOPIC_NAME rear_wheel_callback s in
  create_subscription DEFAULT_GPS_NMEA_TOPIC_NAME set_gps_info_callback s.

(** *** The values published last *)

Definition set_previous_battery_values (s : node) : node :=
  let m := battery_message (current s) in
  with_previous (set_battery_message {| battery_voltage := battery_voltage m |}) s.

Definition set_previous_camera_values (s : node) : node :=
  let m := camera_msg (current s) in
  with_previous (set_camera_msg
    {| camera_zed := camera_zed m;
       camera_undercarriage := camera_undercarriage m;
       camera_chassis := camera_chassis m;
       camera_main_navigation := camera_main_navigation m |}) s.

Definition set_previous_jetson_values (s : node) : node :=
  let m := jetson_msg (current s) in
  with_previous (set_jetson_msg
    {| jetson_cpu := jetson_cpu m;
       jetson_ram := jetson_ram m;
       jetson_emmc := jetson_emmc m;
       jetson_nvme_ssd := jetson_nvme_ssd m;
       jetson_gpu_temp := jetson_gpu_temp m |}) s.

Definition set_previous_frsky_value (s : node) : node :=
  let m := FrSky_msg (current s) in
  with_previous (set_FrSky_msg
    {| frsky_controller_connection_status := frsky_controller_connection_status m |}) s.

Definition set_previous_wheel_values (s : node) : node :=
  let m := wheel_msg (current s) in
  with_previous (set_wheel_msg
    {| front_left := front_left m;
       middle_left := middle_left m;
       rear_left := rear_left m;
       front_right := front_right m;
       middle_right := middle_right m;
       rear_right := rear_right m |}) s.

Definition set_previous_gps_values (s : node) : node :=
  let m := GPS_msg (current s) in
  with_previous (set_GPS_msg
    {| gps_connected := gps_connected m;
       gps_fix := gps_fix m;
       num_satellites := num_satellites m;
       horizontal_dilution := horizontal_dilution m;
       kmph := kmph m;
       gps_heading := gps_heading m |}) s.

Definition set_previous_misc_values (s : node) : node :=
  let m := misc_msg (current s) in
  with_previous (set_misc_msg
    {| arm_connection_status := arm_connection_status m;
       arm_end_effector_connection_statuses := arm_end_effector_connection_statuses m;
       chassis_pan_tilt_connection_status := chassis_pan_tilt_connection_status m;
       sample_containment_connection_status := sample_containment_connection_status m;
       tower_connection_status := tower_connection_status m |}) s.

Definition update_all_previous_values (s : node) : node :=
  let s := set_previous_battery_values s in
  let s := set_previous_camera_values s in
  let s := set_previous_jetson_values s in
  let s := set_previous_frsky_value s in
  let s := set_previous_wheel_values s in
  let s := set_previous_gps_values s in
  set_previous_misc_values s.

(** *** The comparisons of [main_loop], one per category: the disjunction
    of [!=] over the fields, the message on the left and the values
    published last on the right. *)

Definition battery_differs (m p : BatteryStatusMessage) : bool :=
  int_ne (battery_voltage m) (battery_voltage p).

Definition camera_differs (m p : CameraStatuses) : bool :=
  bool_ne (camera_zed m) (camera_zed p)
  || bool_ne (camera_undercarriage m) (camera_undercarriage p)
  || bool_ne (camera_chassis m) (camera_chassis p)
  || bool_ne (camera_main_navigation m) (camera_main_navigation p).

Definition jetson_differs (m p : JetsonInfo) : bool :=
  float_ne (jetson_cpu m) (jetson_cpu p)
  || float_ne (jetson_ram m) (jetson_ram p)
  || float_ne (jetson_emmc m) (jetson_emmc p)
  || float_ne (jetson_nvme_ssd m) (jetson_nvme_ssd p)
  || float_ne (jetson_gpu_temp m) (jetson_gpu_temp p).

Definition frsky_differs (m p : FrSkyStatus) : bool :=
  bool_ne (frsky_controller_connection_status m)
          (frsky_controller_connection_status p).

Definition wheel_differs (m p : WheelStatuses) : bool :=
  bool_ne (front_left m) (front_left p)
  || bool_ne (middle_left m) (middle_left p)
  || bool_ne (rear_left m) (rear_left p)
  || bool_ne (front_right m) (front_right p)
  || bool_ne (middle_right m) (middle_right p)
  || bool_ne (rear_right m) (rear_right p).

Definition gps_differs (m p : GPSInfo) : bool :=
  bool_ne (gps_connected m) (gps_connected p)
  || bool_ne (gps_fix m) (gps_fix p)
  || int_ne (num_satellites m) (num_satellites p)
  || float_ne (horizontal_dilution m) (horizontal_dilution p)
  || float_ne (kmph m) (kmph p)
  || float_ne (gps_heading m) (gps_heading p).

Definition misc_differs (m p : MiscStatuses) : bool :=
  bool_ne (arm_connection_status m) (arm_connection_status p)
  || bool_ne (arm_end_effector_connection_statuses m)
             (arm_end_effector_connection_statuses p)
  || bool_ne (chassis_pan_tilt_connection_status m)
             (chassis_pan_tilt_connection_status p)
  || bool_ne (sample_containment_connection_status m)
             (sample_containment_connection_status p)
  || bool_ne (tower_connection_status m) (tower_connection_status p).

(** *** The tick *)

(** A message handed to one of the seven publishers. *)
Inductive publication : Type :=
| pub_battery (m : BatteryStatusMessage)
| pub_camera (m : CameraStatuses)
| pub_wheel (m : WheelStatuses)
| pub_FrSky (m : FrSkyStatus)
| pub_GPS (m : GPSInfo)
| pub_jetson (m : JetsonInfo)
| pub_Misc (m : MiscStatuses).

Definition battery_check (i : tick_input) (s : node) : node * list publication :=
  if battery_differs (battery_message (current s)) (battery_message (previous s))
     || manual_update_requested s
  then
    if Qgtb (time_battery_check i - last_iris_message_sent s)
            (1 / MAX_IRIS_UPDATE_HERTZ)
    then
      let s := set_previous_battery_values s in
      (set_last_iris_message_sent (time_battery_sent i) s,
       [pub_battery (battery_message (current s))])
    else (s, [])
  else (s, []).

Definition camera_check (s : node) : node * list publication :=
  if camera_differs (camera_msg (current s)) (camera_msg (previous s))
     || manual_update_requested s
  then
    let s := set_previous_camera_values s in
    (s, [pub_camera (camera_msg (current s))])
  else (s, []).

Definition jetson_check (i : tick_input) (s : node) : node * list publication :=
  if jetson_differs (jetson_msg (current s)) (jetson_msg (previous s))
     || manual_update_requested s
  then
    if Qgtb (time_jetson_check i - last_jetson_message_sent s)
            (1 / MAX_JETSON_UPDATE_HERTZ)
    then
      let s := set_previous_jetson_values s in
      (set_last_jetson_message_sent (time_jetson_sent i) s,
       [pub_jetson (jetson_msg (current s))])
    else (s, [])
  else (s, []).

Definition frsky_check (s : node) : node * list publication :=
  if frsky_differs (FrSky_msg (current s)) (FrSky_msg (previous s))
     || manual_update_requested s
  then
    let s := set_previous_frsky_value s in
    (s, [pub_FrSky (FrSky_msg (current s))])
  else (s, []).

Definition wheel_check (s : node) : node * list publication :=
  if wheel_differs (wheel_msg (current s)) (wheel_msg (previous s))
     || manual_update_requested s
  then
    let s := set_previous_wheel_values s in
    (s, [pub_wheel (wheel_msg (current s))])
  else (s, []).

Definition gps_check (s : node) : node * list publication :=
  if gps_differs (GPS_msg (current s)) (GPS_msg (previous s))
  then
    let s := set_previous_gps_values s in
    (s, [pub_GPS (GPS_msg (current s))])
  else (s, []).

Definition misc_check (s : node) : node * list publication :=
  if misc_differs (misc_msg (current s)) (misc_msg (previous s))
     || manual_update_requested s
  then
    let s := set_previous_misc_values s in
    (s, [pub_Misc (misc_msg (current s))])
  else (s, []).

(** One block of [main_loop] after another: the node is threaded through,
    what is published is appended. *)
Definition and_then (f g : node -> node * list publication)
  : node -> node * list publication :=
  fun s =>
    let r := f s in
    let r' := g (fst r) in
    (fst r', (snd r ++ snd r')%list).

Definition clear_manual_update (s : node) : node * list publication :=
  (if manual_update_requested s then set_manual_update_requested false s else s, []).

(** What a callback of the node leaves behind: the node, the messages it
    published, and the exception that escaped it, if one did. *)
Record delivered : Type := {
  node_after : node;
  published : list publication;
  escaped : option exn
}.

(** The callback of the timer.  An exception of the refresh leaves the
    method at once: no block runs, nothing is published, and the request
    is not cleared. *)
Definition main_loop (i : tick_input) (s : node) : delivered :=
  let r := pull_new_message_values (probed i) s in
  match snd r with
  | Some e => {| node_after := fst r; published := []; escaped := Some e |}
  | None =>
      let r' :=
        and_then (battery_check i)
          (and_then camera_check
            (and_then (jetson_check i)
              (and_then frsky_check
                (and_then wheel_check
                  (and_then gps_check
                    (and_then misc_check clear_manual_update)))))) (fst r) in
      {| node_after := fst r'; published := snd r'; escaped := None |}
  end.

(** *** The callbacks of the subscriptions *)

Definition on_update_requested_ (s : node) : node :=
  set_manual_update_requested true s.

Definition iris_status_callback_ (voltage_24v : Z) : node -> node :=
  with_current (set_battery_message {| battery_voltage := voltage_24v |}).

Definition left_wheel_callback_ (first_motor_connected second_motor_connected : bool)
  : node -> node :=
  with_current (fun r =>
    let m := wheel_msg r in
    set_wheel_msg
      {| front_left := first_motor_connected;
         middle_left := second_motor_connected;
         rear_left := rear_left m;
         front_right := front_right m;
         middle_right := middle_right m;
         rear_right := rear_right m |} r).

Definition right_wheel_callback_ (first_motor_connected second_motor_connected : bool)
  : node -> node :=
  with_current (fun r =>
    let m := wheel_msg r in
    set_wheel_msg
      {| front_left := front_left m;
         middle_left := middle_left m;
         rear_left := rear_left m;
         front_right := first_motor_connected;
         middle_right := second_motor_connected;
         rear_right := rear_right m |} r).

Definition rear_wheel_callback_ (first_motor_connected second_motor_connected : bool)
  : node -> node :=
  with_current (fun r =>
    let m := wheel_msg r in
    set_wheel_msg
      {| front_left := front_left m;
         middle_left := middle_left m;
         rear_left := first_motor_connected;
         front_right := front_right m;
         middle_right := middle_right m;
         rear_right := second_motor_connected |} r).

Definition frsky_callback_ (controller_present : bool) : node -> node :=
  with_current (set_FrSky_msg
    {| frsky_controller_connection_status := controller_present |}).

(** A field of a parsed sentence, as [int(...)] or [float(...)] finds it:
    [None], a value that converts to [a], or text that is no number. *)
Inductive field (A : Type) : Type :=
| Missing
| Holds (a : A)
| Malformed.
Arguments Missing {A}.
Arguments Malformed {A}.

(** [int(f)], [float(f)]: the number, or the exception Python raises. *)
Definition convert {A : Type} (f : field A) : A + exn :=
  match f with
  | Missing => inr TypeError
  | Holds a => inl a
  | Malformed => inr ValueError
  end.

(** [int(f)], [float(f)] raises. *)
Definition fails_to_convert {A : Type} (f : field A) : Prop :=
  exists e, convert f = inr e.

(** What [pynmea2.parse(data.sentence)] makes of a sentence: it raises; or
    it gives an object without the attribute [sentence_type] (a proprietary
    sentence); or a GGA or a VTG sentence, with the fields the method
    reads; or a sentence of another type. *)
Inductive nmea : Type :=
| Unparsable
| No_sentence_type
| GGA (gps_qual num_sats : field Z) (horizontal_dil : field float)
| VTG (spd_over_grnd_kmph true_track : field float)
| Other_sentence.

Definition set_gps_connected (b : bool) (m : GPSInfo) : GPSInfo :=
  {| gps_connected := b; gps_fix := gps_fix m; num_satellites := num_satellites m;
     horizontal_dilution := horizontal_dilution m; kmph := kmph m;
     gps_heading := gps_heading m |}.

Definition set_gps_fix (b : bool) (m : GPSInfo) : GPSInfo :=
  {| gps_connected := gps_connected m; gps_fix := b;
     num_satellites := num_satellites m;
     horizontal_dilution := horizontal_dilution m; kmph := kmph m;
     gps_heading := gps_heading m |}.

Definition set_num_satellites (n : Z) (m : GPSInfo) : GPSInfo :=
  {| gps_connected := gps_connected m; gps_fix := gps_fix m; num_satellites := n;
     horizontal_dilution := horizontal_dilution m; kmph := kmph m;
     gps_heading := gps_heading m |}.

Definition set_horizontal_dilution (x : float) (m : GPSInfo) : GPSInfo :=
  {| gps_connected := gps_connected m; gps_fix := gps_fix m;
     num_satellites := num_satellites m;
     horizontal_dilution := x; kmph := kmph m; gps_heading := gps_heading m |}.

Definition set_kmph (x : float) (m : GPSInfo) : GPSInfo :=
  {| gps_connected := gps_connected m; gps_fix := gps_fix m;
     num_satellites := num_satellites m;
     horizontal_dilution := horizontal_dilution m; kmph := x;
     gps_heading := gps_heading m |}.

Definition set_gps_heading (x : float) (m : GPSInfo) : GPSInfo :=
  {| gps_connected := gps_connected m; gps_fix := gps_fix m;
     num_satellites := num_satellites m;
     horizontal_dilution := horizontal_dilution m; kmph := kmph m;
     gps_heading := x |}.

(** [__set_gps_info] on the GPS message: the message as the method leaves
    it, and the exception that escapes it, if one does. *)
Definition gps_info (data : nmea) (m : GPSInfo) : GPSInfo * option exn :=
  let m := set_gps_connected true m in
  match data with
  | Unparsable => (m, None)                        (* except Exception: return *)
  | No_sentence_type => (m, Some AttributeError)   (* .sentence_type *)
  | GGA gps_qual num_sats horizontal_dil =>
      match convert gps_qual with
      | inr e => (m, Some e)
      | inl q =>
          let m := set_gps_fix (int_ne q 0) m in
          match convert num_sats with
          | inr e => (m, Some e)
          | inl n =>
              let m := set_num_satellites n m in
              match convert horizontal_dil with
              | inr e => (m, Some e)
              | inl h => (set_horizontal_dilution h m, None)
              end
          end
      end
  | VTG spd_over_grnd_kmph true_track =>
      let m := match convert spd_over_grnd_kmph with
               | inl v => set_kmph v m
               | inr _ => m                        (* except Exception: pass *)
               end in
      match true_track with
      | Missing => (set_gps_heading (-1)%float m, None)
      | _ =>
          match convert true_track with            (* outside any try *)
          | inl t => (set_gps_heading t m, None)
          | inr e => (m, Some e)
          end
      end
  | Other_sentence => (m, None)
  end.

Definition set_gps_info (data : nmea) (s : node) : node * option exn :=
  let r := gps_info data (GPS_msg (current s)) in
  (with_current (set_GPS_msg (fst r)) s, snd r).

(** *** The node from start to end *)

(** The messages as ROS constructs them: false, zero. *)
Definition default_statuses : statuses :=
  {| battery_message := {| battery_voltage := 0 |};
     camera_msg := {| camera_zed := false; camera_undercarriage := false;
                      camera_chassis := false; camera_main_navigation := false |};
     wheel_msg := {| front_left := false; middle_left := false; rear_left := false;
                     front_right := false; middle_right := false;
                     rear_right := false |};
     FrSky_msg := {| frsky_controller_connection_status := false |};
     GPS_msg := {| gps_connected := false; gps_fix := false; num_satellites := 0;
                   horizontal_dilution := 0%float; kmph := 0%float;
                   gps_heading := 0%float |};
     jetson_msg := {| jetson_cpu := 0%float; jetson_ram := 0%float;
                      jetson_emmc := 0%float; jetson_nvme_ssd := 0%float;
                      jetson_gpu_temp := 0%float |};
     misc_msg := {| arm_connection_status := false;
                    arm_end_effector_connection_statuses := false;
                    chassis_pan_tilt_connection_status := false;
                    sample_containment_connection_status := false;
                    tower_connection_status := false |} |}.

(** [__init__], with the probe of its refresh and its two readings of
    [time()]: the node it builds and the exception that escapes it, if one
    does.  When the refresh raises, the constructor raises, the statements
    after the refresh are not run and [main] has no node to spin. *)
Definition init (p : probe) (time_jetson time_iris : Q) : node * option exn :=
  let s := {| manual_update_requested := false;
              current := default_statuses;
              previous := default_statuses;
              last_jetson_message_sent := 0;
              last_iris_message_sent := 0;
              subscriptions :=
                [ {| topic := DEFAULT_REQUEST_UPDATE_TOPIC_NAME;
                     called_back := on_update_requested |} ] |} in
  let r := pull_new_message_values p s in
  match snd r with
  | Some e => (fst r, Some e)
  | None =>
      let s := instantiate_subscribers (fst r) in
      let s := update_all_previous_values s in
      let s := set_last_jetson_message_sent time_jetson s in
      (set_last_iris_message_sent time_iris s, None)
  end.

(** What the executor hands to the node: a firing of the timer or a
    message on one of the subscribed topics. *)
Inductive event : Type :=
| Timer (i : tick_input)
| Update_requested
| Iris_status (voltage_24v : Z)
| Drive_status_left (first_motor_connected second_motor_connected : bool)
| Drive_status_right (first_motor_connected second_motor_connected : bool)
| Drive_status_rear (first_motor_connected second_motor_connected : bool)
| Gps_sentence (data : nmea)
| Iris_drive (controller_present : bool).

Definition deliver (e : event) (s : node) : delivered :=
  match e with
  | Timer i => main_loop i s
  | Update_requested =>
      {| node_after := on_update_requested_ s; published := []; escaped := None |}
  | Iris_status v =>
      {| node_after := iris_status_callback_ v s; published := []; escaped := None |}
  | Drive_status_left a b =>
      {| node_after := left_wheel_callback_ a b s; published := []; escaped := None |}
  | Drive_status_right a b =>
      {| node_after := right_wheel_callback_ a b s; published := []; escaped := None |}
  | Drive_status_rear a b =>
      {| node_after := rear_wheel_callback_ a b s; published := []; escaped := None |}
  | Gps_sentence data =>
      let r := set_gps_info data s in
      {| node_after := fst r; published := []; escaped := snd r |}
  | Iris_drive present =>
      {| node_after := frsky_callback_ present s; published := []; escaped := None |}
  end.

(** [rclpy.spin]: the events one after another, until an exception escapes
    a callback. *)
Fixpoint spin (es : list event) (s : node) : node * list publication :=
  match es with
  | [] => (s, [])
  | e :: es' =>
      let d := deliver e s in
      match escaped d with
      | Some _ => (node_after d, published d)
      | None =>
          let r := spin es' (node_after d) in
          (fst r, (published d ++ snd r)%list)
      end
  end.

(** *** Reading what was published *)

Inductive category : Type :=
| Battery | Camera | Wheel | FrSky | GPS | Jetson | Misc.

Definition category_of (p : publication) : category :=
  match p with
  | pub_battery _ => Battery
  | pub_camera _ => Camera
  | pub_wheel _ => Wheel
  | pub_FrSky _ => FrSky
  | pub_GPS _ => GPS
  | pub_jetson _ => Jetson
  | pub_Misc _ => Misc
  end.

Definition category_eqb (a b : category) : bool :=
  match a, b with
  | Battery, Battery | Camera, Camera | Wheel, Wheel | FrSky, FrSky
  | GPS, GPS | Jetson, Jetson | Misc, Misc => true
  | _, _ => false
  end.

(** How many messages of category [c] are in [out]. *)
Definition publishes (c : category) (out : list publication) : nat :=
  List.length (filter (fun p => category_eqb (category_of p) c) out).

(** The comparison [main_loop] makes for category [c], between the
    messages [m] and the values published last [p]. *)
Definition category_differs (c : category) (m p : statuses) : bool :=
  match c with
  | Battery => battery_differs (battery_message m) (battery_message p)
  | Camera => camera_differs (camera_msg m) (camera_msg p)
  | Wheel => wheel_differs (wheel_msg m) (wheel_msg p)
  | FrSky => frsky_differs (FrSky_msg m) (FrSky_msg p)
  | GPS => gps_differs (GPS_msg m) (GPS_msg p)
  | Jetson => jetson_differs (jetson_msg m) (jetson_msg p)
  | Misc => misc_differs (misc_msg m) (misc_msg p)
  end.

Definition differs (c : category) (s : node) : bool :=
  category_differs c (current s) (previous s).

(** The message of category [c] a publication of [c] would carry. *)
Definition message_of (c : category) (r : statuses) : publication :=
  match c with
  | Battery => pub_battery (battery_message r)
  | Camera => pub_camera (camera_msg r)
  | Wheel => pub_wheel (wheel_msg r)
  | FrSky => pub_FrSky (FrSky_msg r)
  | GPS => pub_GPS (GPS_msg r)
  | Jetson => pub_jetson (jetson_msg r)
  | Misc => pub_Misc (misc_msg r)
  end.

(** The categories [main_loop] holds back by a maximum rate. *)
Definition rate_limited (c : category) : bool :=
  match c with
  | Battery | Jetson => true
  | _ => false
  end.

(** The condition under which the block of [main_loop] for category [c]
    publishes, read on the node as [__pull_new_message_values] left it. *)
Definition due (c : category) (i : tick_input) (s : node) : bool :=
  match c with
  | Battery =>
      (differs Battery s || manual_update_requested s)
      && Qgtb (time_battery_check i - last_iris_message_sent s)
              (1 / MAX_IRIS_UPDATE_HERTZ)
  | Jetson =>
      (differs Jetson s || manual_update_requested s)
      && Qgtb (time_jetson_check i - last_jetson_message_sent s)
              (1 / MAX_JETSON_UPDATE_HERTZ)
  | GPS => differs GPS s
  | Camera | Wheel | FrSky | Misc => differs c s || manual_update_requested s
  end.

(** The order of the blocks of [main_loop]. *)
Definition blocks : list category :=
  [Battery; Camera; Jetson; FrSky; Wheel; GPS; Misc].

(** What the block of category [c] does when it publishes: the values
    published last are set, and for the two rate-limited categories the
    time of the publication is kept. *)
Definition record_published (c : category) (i : tick_input) (s : node) : node :=
  match c with
  | Battery =>
      set_last_iris_message_sent (time_battery_sent i) (set_previous_battery_values s)
  | Camera => set_previous_camera_values s
  | Jetson =>
      set_last_jetson_message_sent (time_jetson_sent i) (set_previous_jetson_values s)
  | FrSky => set_previous_frsky_value s
  | Wheel => set_previous_wheel_values s
  | GPS => set_previous_gps_values s
  | Misc => set_previous_misc_values s
  end.

(** The block of category [c], in one form for the seven. *)
Definition block (c : category) (i : tick_input) (s : node) : node * list publication :=
  if due c i s then (record_published c i s, [message_of c (current s)]) else (s, []).

Definition done (s : node) : node * list publication := (s, []).

Definition run_blocks (i : tick_input) (cs : list category)
  (k : node -> node * list publication) : node -> node * list publication :=
  fold_right (fun c acc => and_then (block c i) acc) k cs.

(** The clock readings and the bound of a rate-limited category
    (zero for the other categories, which have none). *)
Definition last_message_sent (c : category) (s : node) : Q :=
  match c with
  | Battery => last_iris_message_sent s
  | Jetson => last_jetson_message_sent s
  | _ => 0
  end.

Definition time_check (c : category) (i : tick_input) : Q :=
  match c with
  | Battery => time_battery_check i
  | Jetson => time_jetson_check i
  | _ => 0
  end.

Definition time_sent (c : category) (i : tick_input) : Q :=
  match c with
  | Battery => time_battery_sent i
  | Jetson => time_jetson_sent i
  | _ => 0
  end.

Definition minimum_period (c : category) : Q :=
  match c with
  | Battery => 1 / MAX_IRIS_UPDATE_HERTZ
  | Jetson => 1 / MAX_JETSON_UPDATE_HERTZ
  | _ => 0
  end.

(** What the block of category [c] reads is the same in [s] and [s']. *)
Definition same_for (c : category) (s s' : node) : Prop :=
  current s' = current s
  /\ manual_update_requested s' = manual_update_requested s
  /\ message_of c (previous s') = message_of c (previous s)
  /\ last_message_sent c s' = last_message_sent c s.

(** The categories whose fields are all booleans or integers. *)
Definition exact_fields (c : category) : bool :=
  match c with
  | GPS | Jetson => false
  | _ => true
  end.

(** The clock readings at which the events [es] publish category [c]:
    for each firing of the timer that publishes [c], the reading its block
    compared. *)
Fixpoint publication_times (c : category) (es : list event) (s : node) : list Q :=
  match es with
  | [] => []
  | e :: es' =>
      let d := deliver e s in
      let here :=
        match e with
        | Timer i =>
            if (0 <? publishes c (published d))%nat then [time_check c i] else []
        | _ => []
        end in
      match escaped d with
      | Some _ => here
      | None => (here ++ publication_times c es' (node_after d))%list
      end
  end.

(** The clock does not run backwards: the readings of [time()] in the
    events [es], in the order of the reads, starting from [t]. *)
Fixpoint clock_ordered (t : Q) (es : list event) : Prop :=
  match es with
  | [] => True
  | Timer i :: es' =>
      (t <= time_battery_check i)%Q
      /\ (time_battery_check i <= time_battery_sent i)%Q
      /\ (time_battery_sent i <= time_jetson_check i)%Q
      /\ (time_jetson_check i <= time_jetson_sent i)%Q
      /\ clock_ordered (time_jetson_sent i) es'
  | _ :: es' => clock_ordered t es'
  end.

(** One publication at [a], another at [b]: more than the period of
    category [c] apart. *)
Definition apart (c : category) (a b : Q) : Prop := (a + minimum_period c < b)%Q.

(** A message of the GPS topic says connected (any other message passes). *)
Definition gps_reports_connected (p : publication) : Prop :=
  match p with
  | pub_GPS m => gps_connected m = true
  | _ => True
  end.

(** *** Some probes, ticks, nodes and runs to run the model on *)

(** No camera plugged in, [sensors] failing. *)
Definition quiet_probe : probe :=
  {| os_path_exists := fun _ => false; cpu_percent := 12.5%float;
     virtual_memory_percent := 40%float; used_percent_fs := fun _ => 55%float;
     sensors_output := None |}.

(** The same machine with the four cameras plugged in. *)
Definition seeing_probe : probe :=
  {| os_path_exists := fun _ => true; cpu_percent := 12.5%float;
     virtual_memory_percent := 40%float; used_percent_fs := fun _ => 55%float;
     sensors_output := None |}.

(** The same machine again, with [sensors] answering. *)
Definition sensing_probe : probe :=
  {| os_path_exists := fun _ => true; cpu_percent := 12.5%float;
     virtual_memory_percent := 40%float; used_percent_fs := fun _ => 55%float;
     sensors_output := Some "temp1:        +45.0 C  (crit = +101.0 C)" |}.

(** A tick all of whose clock readings are [t]. *)
Definition tick_at (p : probe) (t : Q) : tick_input :=
  {| probed := p; time_battery_check := t; time_battery_sent := t;
     time_jetson_check := t; time_jetson_sent := t |}.

(** The node as it starts at time 0; then with a battery voltage
    received, with a refresh requested, with a GGA sentence whose
    dilution is not a number. *)
Definition started : node := fst (init quiet_probe 0 0).
Definition charged : node := iris_status_callback_ 24 started.
Definition requested : node := on_update_requested_ started.
Definition diluted : node :=
  fst (set_gps_info (GGA (Holds 1%Z) (Holds 5%Z) (Holds PrimFloat.nan)) started).

(** Three voltages and four ticks, at 1 s, 6 s, 8 s and 12 s. *)
Definition battery_run : list event :=
  [ Iris_status 24; Timer (tick_at quiet_probe 1); Iris_status 25;
    Timer (tick_at quiet_probe 6); Iris_status 26; Timer (tick_at quiet_probe 8);
    Timer (tick_at quiet_probe 12) ].

(** *** What the further properties are stated with *)

(** A float that is equal to itself: any but NaN. *)
Definition no_nan (x : float) : bool := PrimFloat.eqb x x.

(** The readings [__set_jetson_usage_information] stores hold no NaN. *)
Definition probe_readable (p : probe) : bool :=
  no_nan (cpu_percent p)
  && no_nan (virtual_memory_percent p)
  && no_nan (used_percent_fs p (nth 0 file_systems_EMMC_NVMe_SSD ""%string))
  && no_nan (used_percent_fs p (nth 1 file_systems_EMMC_NVMe_SSD ""%string)).

(** Events among which the timer does not fire: callbacks only. *)
Definition no_timer (es : list event) : bool :=
  forallb (fun e => match e with Timer _ => false | _ => true end) es.

(** The misc record the refresh writes: every flag false. *)
Definition no_misc : MiscStatuses :=
  {| arm_connection_status := false;
     arm_end_effector_connection_statuses := false;
     chassis_pan_tilt_connection_status := false;
     sample_containment_connection_status := false;
     tower_connection_status := false |}.

(** A message of the misc topic has every flag false (any other message
    passes). *)
Definition says_no_misc (x : publication) : Prop :=
  match x with
  | pub_Misc m => m = no_misc
  | _ => True
  end.

End SystemStatuses.

Unset Implicit Arguments.

(** * Facts *)

(** ** Comparisons *)

Lemma Qgtb_true (a b : Q) : Qgtb a b = true <-> (b < a)%Q.
Proof.
  unfold Qgtb. rewrite negb_true_iff.
  split; intro H.
  - apply Qnot_le_lt. intro L. apply Qle_bool_iff in L. congruence.
  - destruct (Qle_bool a b) eqn:E; [|reflexivity].
    apply Qle_bool_iff in E. exfalso. apply (Qlt_not_le _ _ H E).
Qed.

Lemma Qgtb_false (a b : Q) : Qgtb a b = false <-> (a <= b)%Q.
Proof.
  unfold Qgtb. rewrite negb_false_iff. apply Qle_bool_iff.
Qed.

Lemma bool_ne_false (a b : bool) : bool_ne a b = false <-> a = b.
Proof. destruct a, b; cbn; split; intro H; try reflexivity; discriminate H. Qed.

Lemma int_ne_false (a b : Z) : int_ne a b = false <-> a = b.
Proof.
  unfold int_ne. rewrite negb_false_iff. apply Z.eqb_eq.
Qed.

Lemma flat_map_agree {A B} (f g : A -> list B) (l : list A) :
  (forall x, In x l -> f x = g x) -> flat_map f l = flat_map g l.
Proof.
  induction l as [|a l IH]; intro H; [reflexivity|].
  cbn. rewrite (H a) by (left; reflexivity).
  rewrite IH; [reflexivity|]. intros x Hx. apply H. right. exact Hx.
Qed.

(** ** The Iris controller node *)
Module IrisControllerFacts.

Import IrisController.
Local Open Scope Z_scope.

(** *** Running the monad one step at a time *)

Lemma bind_bind {A B C} (m : M A) (k1 : A -> M B) (k2 : B -> M C) (s : node) :
  bind (bind m k1) k2 s = bind m (fun a => bind (k1 a) k2) s.
Proof.
  unfold bind. destruct (m s) as [f e [a|x]]; cbn [final effects completes].
  - destruct (k1 a f) as [f' e' [b|y]]; cbn [final effects completes].
    + rewrite app_assoc. reflexivity.
    + reflexivity.
  - reflexivity.
Qed.

Lemma bind_ret {A B} (a : A) (k : A -> M B) (s : node) : bind (ret a) k s = k a s.
Proof. unfold bind, ret. cbn. destruct (k a s); reflexivity. Qed.

Lemma bind_raise {A B} (x : exn) (k : A -> M B) (s : node) :
  bind (raise x) k s = {| final := s; effects := []; completes := Raised x |}.
Proof. reflexivity. Qed.

Lemma bind_emit {B} (x : effect) (k : unit -> M B) (s : node) :
  bind (emit x) k s =
  {| final := final (k tt s); effects := x :: effects (k tt s);
     completes := completes (k tt s) |}.
Proof. reflexivity. Qed.

Lemma bind_register {B} (r : register_name) (k : Z -> M B) (s : node) :
  bind (register r) k s =
  match nth_error (registers s) (MODBUS_REGISTERS r) with
  | Some v => k v s
  | None => {| final := s; effects := []; completes := Raised IndexError |}
  end.
Proof.
  unfold register. rewrite bind_bind. unfold bind at 1, get.
  cbn [final effects completes app].
  destruct (nth_error (registers s) (MODBUS_REGISTERS r)).
  - rewrite bind_ret. destruct (k z s); reflexivity.
  - reflexivity.
Qed.

Lemma register_run (r : register_name) (s : node) :
  register r s =
  match nth_error (registers s) (MODBUS_REGISTERS r) with
  | Some v => {| final := s; effects := []; completes := Returned v |}
  | None => {| final := s; effects := []; completes := Raised IndexError |}
  end.
Proof.
  unfold register, bind, get. cbn [final effects completes app].
  destruct (nth_error (registers s) (MODBUS_REGISTERS r)); reflexivity.
Qed.

(** One step of a run: reassociate, read a register, pass a value on,
    record an effect, or split on a register or a test. *)
Ltac run_step :=
  first
    [ rewrite bind_bind
    | rewrite bind_register
    | rewrite bind_ret
    | rewrite bind_raise
    | rewrite bind_emit
    | rewrite register_run
    | match goal with
      | |- context [match nth_error ?l ?n with _ => _ end] =>
          destruct (nth_error l n) eqn:?
      end
    | match goal with
      | |- context [if ?b then _ else _] => destruct b eqn:?
      end ];
  cbv beta;
  cbn [registers MODBUS_REGISTERS REGISTER_STATE_MAPPING];
  repeat match goal with
    | |- context [nth_error (?a :: ?l) ?n] =>
        let v := eval cbv in (nth_error (a :: l) n) in
        change (nth_error (a :: l) n) with v;
        cbv beta iota
    end.

Ltac unfold_broadcasts :=
  unfold broadcasts, broadcast_drive_if_current_mode, broadcast_arm_if_current_mode,
    broadcast_iris_status.

Lemma broadcasts_final (s : node) : final (broadcasts s) = s.
Proof.
  unfold_broadcasts.
  repeat run_step; reflexivity.
Qed.

(** *** One tick, piece by piece *)

Lemma bind_run {A B} (m : M A) (k : A -> M B) (s : node) :
  bind m k s =
  match completes (m s) with
  | Returned a =>
      {| final := final (k a (final (m s)));
         effects := effects (m s) ++ effects (k a (final (m s)));
         completes := completes (k a (final (m s))) |}
  | Raised e =>
      {| final := final (m s); effects := effects (m s); completes := Raised e |}
  end.
Proof. reflexivity. Qed.

Lemma try_except_run {A} (m : M A) (h : exn -> M A) (s : node) :
  try_except m h s =
  match completes (m s) with
  | Returned a => m s
  | Raised e =>
      {| final := final (h e (final (m s)));
         effects := effects (m s) ++ effects (h e (final (m s)));
         completes := completes (h e (final (m s))) |}
  end.
Proof. reflexivity. Qed.

(** [read_registers] never raises; it keeps the registers and the
    last-seen time of a good read, and on a bad read only lowers
    [self.iris_connected]. *)
Lemma read_registers_run (i : tick_input) (s : node) :
  read_registers i s =
  {| final :=
       match bus_read i with
       | Some regs => {| registers := regs;
                         self_iris_connected := self_iris_connected s;
                         iris_last_seen_time := time_after_read i |}
       | None => {| registers := registers s;
                    self_iris_connected := false;
                    iris_last_seen_time := iris_last_seen_time s |}
       end;
     effects := [];
     completes := Returned tt |}.
Proof.
  unfold read_registers, iris_read_registers.
  destruct (bus_read i); reflexivity.
Qed.

Lemma read_then_broadcasts (i : tick_input) (s : node) :
  bind (read_registers i) (fun _ => broadcasts) s =
  broadcasts (final (read_registers i s)).
Proof.
  rewrite bind_run, read_registers_run. cbn [final effects completes app].
  destruct (broadcasts _); reflexivity.
Qed.

(** The last-seen check at the end of [main_loop]. *)
Lemma last_seen_check_run (i : tick_input) (s : node) :
  (s' <- get ;;
   if Qgtb (time_at_check i - iris_last_seen_time s') IRIS_LAST_SEEN_TIMEOUT then
     emit Print_not_seen ;;; emit Destroy_node ;;; ret tt
   else ret tt) s =
  let over := Qgtb (time_at_check i - iris_last_seen_time s) IRIS_LAST_SEEN_TIMEOUT in
  {| final := s; effects := closing over; completes := Returned tt |}.
Proof.
  rewrite bind_run. cbn [get final effects completes app].
  destruct (Qgtb _ _); reflexivity.
Qed.

(** [main_loop] is the read, the broadcasts, the report of an exception
    they raised, and the last-seen check. *)
Lemma main_loop_run (i : tick_input) (s : node) :
  let s1 := final (read_registers i s) in
  let b := broadcasts s1 in
  let over := Qgtb (time_at_check i - iris_last_seen_time s1) IRIS_LAST_SEEN_TIMEOUT in
  main_loop i s =
  {| final := s1;
     effects := effects b
                ++ match completes b with
                   | Raised e => [Print_error e]
                   | Returned _ => []
                   end
                ++ closing over;
     completes := Returned tt |}.
Proof.
  intros s1 b over.
  pose proof (broadcasts_final s1) as Hf. fold b in Hf.
  unfold main_loop.
  change (read_registers i;;; broadcast_drive_if_current_mode;;;
          broadcast_arm_if_current_mode;;; broadcast_iris_status)
    with (bind (read_registers i) (fun _ => broadcasts)).
  rewrite bind_run, try_except_run, read_then_broadcasts.
  fold s1. fold b.
  destruct (completes b) eqn:Eb.
  - rewrite Eb, Hf, last_seen_check_run. fold over. cbn [final effects completes app].
    reflexivity.
  - cbn [emit final effects completes]. rewrite Hf, last_seen_check_run. fold over.
    cbn [final effects completes]. rewrite <- app_assoc. reflexivity.
Qed.

Lemma drive_commands_app (a b : list effect) :
  drive_commands (a ++ b) = drive_commands a ++ drive_commands b.
Proof. unfold drive_commands. apply flat_map_app. Qed.

Lemma iris_statuses_app (a b : list effect) :
  iris_statuses (a ++ b) = iris_statuses a ++ iris_statuses b.
Proof. unfold iris_statuses. apply flat_map_app. Qed.

Lemma prints_Arm_app (a b : list effect) :
  prints_Arm (a ++ b) = prints_Arm a || prints_Arm b.
Proof. unfold prints_Arm. apply existsb_app. Qed.

(** What the tick publishes is what its three broadcasts publish. *)
Lemma main_loop_drive_commands (i : tick_input) (s : node) :
  drive_commands (effects (main_loop i s)) =
  drive_commands (effects (broadcasts (final (read_registers i s)))).
Proof.
  rewrite main_loop_run. cbn [effects].
  rewrite !drive_commands_app.
  destruct (completes _); destruct (Qgtb _ _); cbn; now rewrite app_nil_r.
Qed.

Lemma main_loop_iris_statuses (i : tick_input) (s : node) :
  iris_statuses (effects (main_loop i s)) =
  iris_statuses (effects (broadcasts (final (read_registers i s)))).
Proof.
  rewrite main_loop_run. cbn [effects].
  rewrite !iris_statuses_app.
  destruct (completes _); destruct (Qgtb _ _); cbn; now rewrite app_nil_r.
Qed.

Lemma main_loop_prints_Arm (i : tick_input) (s : node) :
  prints_Arm (effects (main_loop i s)) =
  prints_Arm (effects (broadcasts (final (read_registers i s)))).
Proof.
  rewrite main_loop_run. cbn [effects].
  rewrite !prints_Arm_app.
  destruct (completes _); destruct (Qgtb _ _); cbn; now rewrite ?orb_false_r.
Qed.

Lemma errors_app (a b : list effect) : errors (a ++ b) = errors a ++ errors b.
Proof. unfold errors. apply flat_map_app. Qed.

Lemma broadcasts_no_errors (s : node) : errors (effects (broadcasts s)) = [].
Proof. unfold_broadcasts. repeat run_step; reflexivity. Qed.

Lemma main_loop_errors (i : tick_input) (s : node) :
  errors (effects (main_loop i s)) =
  match completes (broadcasts (final (read_registers i s))) with
  | Raised e => [e]
  | Returned _ => []
  end.
Proof.
  rewrite main_loop_run. cbn [effects].
  rewrite !errors_app, broadcasts_no_errors.
  destruct (completes _); destruct (Qgtb _ _); reflexivity.
Qed.

Lemma destroys_app (a b : list effect) : destroys (a ++ b) = destroys a || destroys b.
Proof. unfold destroys. apply existsb_app. Qed.

(** A list of twenty registers, spelled out. *)
Lemma twenty_registers (l : list Z) :
  length l = 20%nat ->
  exists a0 a1 a2 a3 a4 a5 a6 a7 a8 a9 a10 a11 a12 a13 a14 a15 a16 a17 a18 a19,
    l = [a0; a1; a2; a3; a4; a5; a6; a7; a8; a9; a10; a11; a12; a13; a14; a15;
         a16; a17; a18; a19].
Proof.
  intro H.
  do 20 (destruct l as [|? l]; [discriminate H|]).
  destruct l; [|discriminate H].
  repeat eexists.
Qed.

(** With all twenty registers there, no broadcast raises. *)
Lemma broadcasts_twenty (s : node) :
  length (registers s) = 20%nat ->
  let reg r := nth (MODBUS_REGISTERS r) (registers s) 0 in
  broadcasts s =
  {| final := s;
     effects :=
       (if reg SE_SWITCH <? SBUS_MID
        then [Publish_drive_command
                (drive_command (reg LEFT_STICK_Y_AXIS) (reg RIGHT_STICK_Y_AXIS)
                               (reg SF_SWITCH))]
        else [])
       ++ (if SBUS_MIN + SBUS_DEADZONE <? reg SE_SWITCH then [Print_Arm] else [])
       ++ [Publish_iris_status {| iris_connected := true;
                                  voltage_24v := reg VOLTAGE_24V |}];
     completes := Returned tt |}.
Proof.
  intros H.
  destruct s as [regs c t]. cbn [registers] in *.
  destruct (twenty_registers regs H) as
    (a0 & a1 & a2 & a3 & a4 & a5 & a6 & a7 & a8 & a9 & a10 & a11 & a12 & a13
     & a14 & a15 & a16 & a17 & a18 & a19 & ->).
  unfold_broadcasts. unfold drive_command.
  cbn [nth MODBUS_REGISTERS].
  repeat run_step; reflexivity.
Qed.

(** Without the mode register the first broadcast raises at once. *)
Lemma broadcasts_no_mode_register (s : node) :
  nth_error (registers s) (MODBUS_REGISTERS SE_SWITCH) = None ->
  broadcasts s = {| final := s; effects := []; completes := Raised IndexError |}.
Proof.
  intro H.
  unfold_broadcasts.
  rewrite bind_bind, bind_register.
  cbn [MODBUS_REGISTERS REGISTER_STATE_MAPPING] in *. rewrite H. reflexivity.
Qed.

(** Without the voltage register no status goes out, and the broadcasts
    end in an exception. *)
Lemma broadcasts_no_voltage_register (s : node) :
  nth_error (registers s) (MODBUS_REGISTERS VOLTAGE_24V) = None ->
  iris_statuses (effects (broadcasts s)) = []
  /\ completes (broadcasts s) = Raised IndexError.
Proof.
  intro H.
  cbn [MODBUS_REGISTERS] in H. unfold_broadcasts.
  repeat first [ rewrite H | run_step ]; split; reflexivity.
Qed.

(** Every status the broadcasts publish says connected. *)
Lemma broadcasts_statuses (s : node) :
  Forall (fun m => iris_connected m = true) (iris_statuses (effects (broadcasts s))).
Proof.
  unfold_broadcasts.
  repeat run_step; repeat constructor.
Qed.

(** The broadcasts never destroy the node. *)
Lemma broadcasts_keep_node (s : node) : ~ In Destroy_node (effects (broadcasts s)).
Proof.
  unfold_broadcasts.
  repeat run_step; cbn; intuition discriminate.
Qed.

Lemma broadcasts_destroys (s : node) : destroys (effects (broadcasts s)) = false.
Proof. unfold_broadcasts. repeat run_step; reflexivity. Qed.

(** A tick destroys the node exactly when its last-seen check is over the
    timeout; and it returns, on either path. *)
Lemma main_loop_destroys (i : tick_input) (s : node) :
  destroys (effects (main_loop i s)) =
  Qgtb (time_at_check i - iris_last_seen_time (final (read_registers i s)))
       IRIS_LAST_SEEN_TIMEOUT.
Proof.
  rewrite main_loop_run. cbn [effects].
  rewrite !destroys_app, broadcasts_destroys.
  destruct (completes _); destruct (Qgtb _ _); reflexivity.
Qed.

Lemma main_loop_completes (i : tick_input) (s : node) :
  completes (main_loop i s) = Returned tt.
Proof. rewrite main_loop_run. reflexivity. Qed.

(** The run of the timer, one tick at a time. *)
Lemma spin_last (i : tick_input) (rest : list tick_input) (s : node) :
  destroys (effects (main_loop i s)) = true ->
  spin (i :: rest) s =
  {| node_left := final (main_loop i s); spun_effects := effects (main_loop i s);
     ended := Exit |}.
Proof. intro H. cbn [spin]. rewrite main_loop_completes, H. reflexivity. Qed.

Lemma spin_next (i : tick_input) (rest : list tick_input) (s : node) :
  destroys (effects (main_loop i s)) = false ->
  spin (i :: rest) s =
  {| node_left := node_left (spin rest (final (main_loop i s)));
     spun_effects := effects (main_loop i s) ++ spun_effects (spin rest (final (main_loop i s)));
     ended := ended (spin rest (final (main_loop i s))) |}.
Proof. intro H. cbn [spin]. rewrite main_loop_completes, H. reflexivity. Qed.

(** *** The drive command *)

(** C6.  In drive mode (mode switch below the middle) and with its twenty
    registers, the tick publishes one drive command.  When both stick
    readings are 0 the command says no controller, ignore the drive
    control, zero velocities, whatever the other registers hold.
    Otherwise it says controller present, takes [ignore_drive_control]
    from the ignore switch being above the middle, and mixes the two
    sticks, each normalised as [(raw - SBUS_MID) / SBUS_RANGE]:
    linear = (left + right) / 2 and angular = (right - left) / 2.  With
    the left stick at middle + range and the right stick at the middle
    this gives linear 0.5 and angular -0.5. *)
Theorem drive_mode_command (i : tick_input) (s : node) :
  let regs := registers (final (read_registers i s)) in
  let reg r := nth (MODBUS_REGISTERS r) regs 0 in
  let left_y_axis := reg LEFT_STICK_Y_AXIS in
  let right_y_axis := reg RIGHT_STICK_Y_AXIS in
  let left := PrimFloat.div (float_of_int (left_y_axis - SBUS_MID)) SBUS_RANGE in
  let right := PrimFloat.div (float_of_int (right_y_axis - SBUS_MID)) SBUS_RANGE in
  length regs = 20%nat ->
  reg (REGISTER_STATE_MAPPING DRIVE_VS_ARM) < SBUS_MID ->
  exists command,
    drive_commands (effects (main_loop i s)) = [command]
    /\ (left_y_axis = 0 /\ right_y_axis = 0 ->
        command = {| controller_present := false;
                     ignore_drive_control := true;
                     drive_twist_linear_x := 0%float;
                     drive_twist_angular_z := 0%float |})
    /\ (~ (left_y_axis = 0 /\ right_y_axis = 0) ->
        command = {| controller_present := true;
                     ignore_drive_control :=
                       SBUS_MID <? reg (REGISTER_STATE_MAPPING IGNORE_CONTROL);
                     drive_twist_linear_x :=
                       PrimFloat.div (PrimFloat.add left right) 2%float;
                     drive_twist_angular_z :=
                       PrimFloat.div (PrimFloat.sub right left) 2%float |})
    /\ (left_y_axis = SBUS_MID + 820 -> right_y_axis = SBUS_MID ->
        drive_twist_linear_x command = 0.5%float
        /\ drive_twist_angular_z command = (-0.5)%float).
Proof.
  intros regs reg left_y_axis right_y_axis left right Hlen Hmode.
  subst reg left_y_axis right_y_axis left right. cbv beta in *.
  cbn [REGISTER_STATE_MAPPING MODBUS_REGISTERS] in *.
  rewrite main_loop_drive_commands.
  rewrite (broadcasts_twenty _ Hlen). cbv zeta. cbn [effects MODBUS_REGISTERS].
  fold regs.
  apply Z.ltb_lt in Hmode. rewrite Hmode.
  rewrite !drive_commands_app.
  assert (Harm : drive_commands
            (if SBUS_MIN + SBUS_DEADZONE <? nth 12 regs 0 then [Print_Arm] else []) = [])
    by (destruct (SBUS_MIN + SBUS_DEADZONE <? nth 12 regs 0); reflexivity).
  rewrite Harm. cbn [drive_commands flat_map app].
  eexists. split; [reflexivity|].
  unfold drive_command, normalize.
  split; [|split; [|intros Hl Hr; split]].
  - intros [-> ->]. reflexivity.
  - intros Hn.
    destruct ((nth 0 regs 0 =? 0) && (nth 1 regs 0 =? 0)) eqn:E; [|reflexivity].
    apply andb_true_iff in E. destruct E as [E1 E2].
    apply Z.eqb_eq in E1, E2. tauto.
  - rewrite Hl, Hr. vm_compute. reflexivity.
  - rewrite Hl, Hr. vm_compute. reflexivity.
Qed.

Lemma drive_mode_command_witness :
  length (registers (final (read_registers demo_tick (init 0)))) = 20%nat
  /\ nth 12 (registers (final (read_registers demo_tick (init 0)))) 0 < SBUS_MID
  /\ exists command,
       drive_commands (effects (main_loop demo_tick (init 0))) = [command]
       /\ drive_twist_linear_x command = 0.5%float
       /\ drive_twist_angular_z command = (-0.5)%float.
Proof.
  assert (Hlen : length (registers (final (read_registers demo_tick (init 0)))) = 20%nat)
    by reflexivity.
  assert (Hmode : nth 12 (registers (final (read_registers demo_tick (init 0)))) 0
                  < SBUS_MID) by reflexivity.
  split; [exact Hlen|]. split; [exact Hmode|].
  destruct (drive_mode_command demo_tick (init 0) Hlen Hmode) as (c & Hc & _ & _ & Hb).
  exists c. split; [exact Hc|]. apply Hb; reflexivity.
Defined.

(** The sentinel, on its own: both sticks at 0 and the mode switch low. *)
Example drive_command_without_controller :
  drive_commands (effects (main_loop short_tick (init 0))) =
  [{| controller_present := false; ignore_drive_control := true;
      drive_twist_linear_x := 0%float; drive_twist_angular_z := 0%float |}].
Proof. vm_compute. reflexivity. Qed.

(** *** Short register vectors *)

(** A node holds no registers or twenty, as long as the board answers in
    full. *)
Lemma main_loop_registers (i : tick_input) (s : node) :
  answers_in_full i ->
  registers s = [] \/ length (registers s) = register_count ->
  registers (final (main_loop i s)) = []
  \/ length (registers (final (main_loop i s))) = register_count.
Proof.
  intros Hi Hs. rewrite main_loop_run. cbn [final].
  rewrite read_registers_run. cbn [final].
  destruct (bus_read i) as [regs|] eqn:E; cbn [registers].
  - right. apply Hi. exact E.
  - exact Hs.
Qed.

Lemma spin_registers (ticks : list tick_input) :
  forall s,
    Forall answers_in_full ticks ->
    registers s = [] \/ length (registers s) = register_count ->
    registers (node_left (spin ticks s)) = []
    \/ length (registers (node_left (spin ticks s))) = register_count.
Proof.
  induction ticks as [|i ticks IH]; intros s Hall Hs; [exact Hs|].
  inversion Hall as [|? ? Hi Hrest]; subst.
  pose proof (main_loop_registers i s Hi Hs) as H1.
  destruct (destroys (effects (main_loop i s))) eqn:Hd.
  - rewrite (spin_last i ticks s Hd). exact H1.
  - rewrite (spin_next i ticks s Hd). cbn [node_left]. apply IH; assumption.
Qed.

(** C4.  Between two ticks the node holds the registers of its last good
    read, all twenty of them, or the empty list it starts with: the board
    answers in full or not at all.  So a register vector shorter than
    twenty is the empty one, and on it the tick fails closed: the first
    register read raises an index error, [main_loop] catches and prints
    it, no drive command and no status is published, nothing is printed
    for the arm, and the tick returns. *)
Theorem short_vector_fails_closed (now : Q) (ticks : list tick_input) (i : tick_input) :
  Forall answers_in_full ticks -> answers_in_full i ->
  let s := node_left (spin ticks (init now)) in
  let regs := registers (final (read_registers i s)) in
  let r := main_loop i s in
  (regs = [] \/ length regs = register_count)
  /\ ((length regs < register_count)%nat ->
      drive_commands (effects r) = []
      /\ iris_statuses (effects r) = []
      /\ prints_Arm (effects r) = false
      /\ errors (effects r) = [IndexError])
  /\ completes r = Returned tt.
Proof.
  intros Hall Hi s regs r.
  assert (Hs : registers s = [] \/ length (registers s) = register_count)
    by (apply spin_registers; [exact Hall | left; reflexivity]).
  assert (Hregs : regs = [] \/ length regs = register_count).
  { unfold regs. rewrite read_registers_run. cbn [final].
    destruct (bus_read i) as [l|] eqn:E; cbn [registers];
      [right; apply Hi; exact E | exact Hs]. }
  split; [exact Hregs|]. split.
  - intro Hshort.
    assert (Hnil : regs = []) by (destruct Hregs as [H|H]; [exact H | lia]).
    assert (H : nth_error (registers (final (read_registers i s)))
                  (MODBUS_REGISTERS SE_SWITCH) = None)
      by (fold regs; rewrite Hnil; reflexivity).
    unfold r. rewrite main_loop_drive_commands, main_loop_iris_statuses,
      main_loop_prints_Arm, main_loop_errors.
    rewrite (broadcasts_no_mode_register _ H). cbn [effects completes].
    repeat split; reflexivity.
  - unfold r. rewrite main_loop_run. reflexivity.
Qed.

Lemma short_vector_fails_closed_witness :
  answers_in_full never_read_tick
  /\ Forall answers_in_full [never_read_tick]
  /\ (length (registers (final (read_registers never_read_tick
                                  (node_left (spin [never_read_tick] (init 0))))))
      < register_count)%nat
  /\ drive_commands
       (effects (main_loop never_read_tick
                   (node_left (spin [never_read_tick] (init 0))))) = []
  /\ iris_statuses
       (effects (main_loop never_read_tick
                   (node_left (spin [never_read_tick] (init 0))))) = []
  /\ errors
       (effects (main_loop never_read_tick
                   (node_left (spin [never_read_tick] (init 0))))) = [IndexError].
Proof.
  assert (Hn : answers_in_full never_read_tick) by (intros regs E; discriminate E).
  assert (Hall : Forall answers_in_full [never_read_tick])
    by (constructor; [exact Hn | constructor]).
  assert (Hshort : (length (registers (final (read_registers never_read_tick
                       (node_left (spin [never_read_tick] (init 0))))))
                    < register_count)%nat) by (vm_compute; lia).
  pose proof (short_vector_fails_closed 0 [never_read_tick] never_read_tick Hall Hn) as T.
  cbv zeta in T. destruct T as (_ & T & _).
  destruct (T Hshort) as (T1 & T2 & _ & T4).
  split; [exact Hn|]. split; [exact Hall|]. split; [exact Hshort|].
  split; [exact T1|]. split; [exact T2 | exact T4].
Defined.

(** *** The mode switch *)

(** C5, as amended.  With its twenty registers, the tick takes the drive
    branch exactly when the mode switch reads below [SBUS_MID], and the arm
    branch exactly when it reads above [SBUS_MIN + SBUS_DEADZONE].  From
    the middle up, the zone up to middle + deadzone included, the arm
    branch is taken and the drive branch is not; at or below
    [SBUS_MIN + SBUS_DEADZONE] the drive branch alone is taken. *)
Theorem mode_branches (i : tick_input) (s : node) :
  let regs := registers (final (read_registers i s)) in
  let mode := nth (MODBUS_REGISTERS (REGISTER_STATE_MAPPING DRIVE_VS_ARM)) regs 0 in
  let out := effects (main_loop i s) in
  length regs = 20%nat ->
  (length (drive_commands out) = 1%nat <-> mode < SBUS_MID)
  /\ (drive_commands out = [] <-> SBUS_MID <= mode)
  /\ (prints_Arm out = true <-> SBUS_MIN + SBUS_DEADZONE < mode)
  /\ (SBUS_MID <= mode ->
      drive_commands out = [] /\ prints_Arm out = true)
  /\ (mode <= SBUS_MIN + SBUS_DEADZONE ->
      length (drive_commands out) = 1%nat /\ prints_Arm out = false).
Proof.
  intros regs mode out Hlen.
  assert (Hd : drive_commands out =
               if mode <? SBUS_MID
               then [drive_command (nth 0 regs 0) (nth 1 regs 0) (nth 13 regs 0)]
               else []).
  { unfold out. rewrite main_loop_drive_commands, (broadcasts_twenty _ Hlen).
    cbn [effects]. rewrite !drive_commands_app. fold regs.
    change (nth (MODBUS_REGISTERS SE_SWITCH) regs 0) with mode.
    destruct (mode <? SBUS_MID), (SBUS_MIN + SBUS_DEADZONE <? mode); reflexivity. }
  assert (Ha : prints_Arm out = (SBUS_MIN + SBUS_DEADZONE <? mode)).
  { unfold out. rewrite main_loop_prints_Arm, (broadcasts_twenty _ Hlen).
    cbn [effects]. rewrite !prints_Arm_app. fold regs.
    change (nth (MODBUS_REGISTERS SE_SWITCH) regs 0) with mode.
    destruct (mode <? SBUS_MID), (SBUS_MIN + SBUS_DEADZONE <? mode); reflexivity. }
  rewrite Hd, Ha. clear Hd Ha.
  unfold SBUS_MID, SBUS_MIN, SBUS_DEADZONE in *.
  destruct (Z.ltb_spec mode 991), (Z.ltb_spec (172 + 5) mode); cbn;
    repeat split; intros; try discriminate; try lia; try reflexivity.
Qed.

Lemma mode_branches_witness :
  length (registers (final (read_registers (tick_reading gap_registers) (init 0))))
  = 20%nat
  /\ drive_commands (effects (main_loop (tick_reading gap_registers) (init 0))) = []
  /\ prints_Arm (effects (main_loop (tick_reading gap_registers) (init 0))) = true.
Proof.
  assert (Hlen : length (registers (final (read_registers (tick_reading gap_registers)
                                              (init 0)))) = 20%nat) by reflexivity.
  split; [exact Hlen|].
  destruct (mode_branches (tick_reading gap_registers) (init 0) Hlen)
    as (_ & _ & _ & Hz & _).
  apply Hz. vm_compute. discriminate.
Defined.

(** A switch reading of 993 lies between the middle and middle + deadzone,
    and the arm branch is taken; a reading of 500 takes both branches. *)
Lemma mode_branches_counterexample :
  (SBUS_MID <= nth 12 gap_registers 0 <= SBUS_MID + SBUS_DEADZONE)
  /\ prints_Arm (effects (main_loop (tick_reading gap_registers) (init 0))) = true
  /\ nth 12 demo_registers 0 = 500
  /\ length (drive_commands (effects (main_loop demo_tick (init 0)))) = 1%nat
  /\ prints_Arm (effects (main_loop demo_tick (init 0))) = true.
Proof. vm_compute. repeat split; try reflexivity; discriminate. Qed.

(** *** A read that fails *)

(** C7, on the code.  A read that raises is caught inside
    [read_registers]: the tick returns, the last-seen time and the
    registers stay as they were and [self.iris_connected] is lowered.  A
    read that succeeds sets the last-seen time to the clock.  But every
    status the node publishes says [iris_connected = True]: after a failed
    read on a node that holds twenty registers, the tick publishes a status
    with [iris_connected = True] and the voltage of the old registers. *)
Theorem failed_read_tick (i : tick_input) (s : node) :
  let r := main_loop i s in
  (bus_read i = None ->
   iris_last_seen_time (final r) = iris_last_seen_time s
   /\ registers (final r) = registers s
   /\ self_iris_connected (final r) = false
   /\ (length (registers s) = 20%nat ->
       iris_statuses (effects r) =
         [{| iris_connected := true;
             voltage_24v := nth (MODBUS_REGISTERS VOLTAGE_24V) (registers s) 0 |}]))
  /\ (forall regs, bus_read i = Some regs ->
      iris_last_seen_time (final r) = time_after_read i
      /\ registers (final r) = regs)
  /\ (exists e, completes r = Returned e)
  /\ Forall (fun m => iris_connected m = true) (iris_statuses (effects r)).
Proof.
  intros r. unfold r.
  rewrite main_loop_iris_statuses, main_loop_run. cbn [final completes].
  rewrite read_registers_run. cbn [final].
  split; [|split; [|split]].
  - intros ->. repeat split.
    intro Hlen.
    rewrite broadcasts_twenty by exact Hlen. cbn [effects registers].
    rewrite !iris_statuses_app.
    destruct (_ <? SBUS_MID), (_ <? _); reflexivity.
  - intros regs ->. split; reflexivity.
  - eexists. reflexivity.
  - apply broadcasts_statuses.
Qed.

Lemma failed_read_tick_witness :
  bus_read failing_tick = None
  /\ length (registers seen_node) = 20%nat
  /\ iris_last_seen_time (final (main_loop failing_tick seen_node)) = 1 # 10
  /\ self_iris_connected (final (main_loop failing_tick seen_node)) = false
  /\ iris_statuses (effects (main_loop failing_tick seen_node)) =
       [{| iris_connected := true; voltage_24v := 24 |}].
Proof.
  assert (Hb : bus_read failing_tick = None) by reflexivity.
  assert (Hlen : length (registers seen_node) = 20%nat) by reflexivity.
  destruct (failed_read_tick failing_tick seen_node) as (H & _).
  destruct (H Hb) as (Ht & _ & Hc & Hs).
  split; [exact Hb|]. split; [exact Hlen|]. split; [exact Ht|].
  split; [exact Hc | exact (Hs Hlen)].
Defined.

(** *** The hard disconnect *)

(** C8, on the code.  The tick compares the clock with the time of the
    last good read (the read of this tick, if it succeeded).  When more
    than [IRIS_LAST_SEEN_TIMEOUT] = 1 s have passed (the timeout of one
    read is 0.15 s), the tick prints that it exits and destroys the node,
    as its last effects, and the timer does not fire again; otherwise the
    node is left alone.  But on either path the method returns [None] to
    the executor and raises nothing: the tick does nothing that ends the
    process, it only leaves it without a node. *)
Theorem hard_disconnect_exit (i : tick_input) (s : node) (rest : list tick_input) :
  let r := main_loop i s in
  let last_success :=
    match bus_read i with
    | Some _ => time_after_read i
    | None => iris_last_seen_time s
    end in
  let elapsed := (time_at_check i - last_success)%Q in
  ((IRIS_LAST_SEEN_TIMEOUT < elapsed)%Q ->
   (exists out, effects r = out ++ [Print_not_seen; Destroy_node]
                /\ ~ In Destroy_node out)
   /\ spin (i :: rest) s =
      {| node_left := final r; spun_effects := effects r; ended := Exit |})
  /\ ((elapsed <= IRIS_LAST_SEEN_TIMEOUT)%Q ->
      ~ In Destroy_node (effects r)
      /\ spun_effects (spin (i :: rest) s)
         = effects r ++ spun_effects (spin rest (final r)))
  /\ completes r = Returned tt
  /\ (COMMUNICATIONS_TIMEOUT < IRIS_LAST_SEEN_TIMEOUT)%Q
  /\ (IRIS_LAST_SEEN_TIMEOUT == 1)%Q.
Proof.
  intros r last_success elapsed.
  assert (Hlast : iris_last_seen_time (final (read_registers i s)) = last_success).
  { rewrite read_registers_run. unfold last_success. destruct (bus_read i); reflexivity. }
  assert (Hd : destroys (effects r) = Qgtb elapsed IRIS_LAST_SEEN_TIMEOUT).
  { unfold r. rewrite main_loop_destroys, Hlast. reflexivity. }
  assert (Hout : ~ In Destroy_node
                     (effects (broadcasts (final (read_registers i s)))
                      ++ match completes (broadcasts (final (read_registers i s))) with
                         | Raised e => [Print_error e]
                         | Returned _ => []
                         end)).
  { intro Hin. apply in_app_or in Hin. destruct Hin as [Hin|Hin].
    - exact (broadcasts_keep_node _ Hin).
    - destruct (completes _); cbn in Hin; intuition discriminate. }
  split; [|split; [|split; [|split]]].
  - intro H. apply Qgtb_true in H. split.
    + unfold r. rewrite main_loop_run. cbn [effects]. rewrite Hlast. fold elapsed.
      rewrite H. cbn [closing]. eexists. rewrite app_assoc.
      split; [reflexivity | exact Hout].
    + apply spin_last. fold r. rewrite Hd. exact H.
  - intro H. apply Qgtb_false in H. split.
    + unfold r. rewrite main_loop_run. cbn [effects]. rewrite Hlast. fold elapsed.
      rewrite H. cbn [closing]. rewrite app_nil_r. exact Hout.
    + rewrite spin_next by (fold r; rewrite Hd; exact H). reflexivity.
  - apply main_loop_completes.
  - reflexivity.
  - reflexivity.
Qed.

(** The read fails 1.2 s after the last good one: the tick publishes the
    status of the old registers, says that it exits, destroys the node, and
    returns as the tick before it did. *)
Lemma hard_disconnect_exit_witness :
  (IRIS_LAST_SEEN_TIMEOUT < time_at_check silent_tick - iris_last_seen_time seen_node)%Q
  /\ spin [silent_tick; demo_tick] seen_node =
     {| node_left := final (main_loop silent_tick seen_node);
        spun_effects := effects (main_loop silent_tick seen_node);
        ended := Exit |}
  /\ completes (main_loop silent_tick seen_node) = Returned tt
  /\ completes (main_loop silent_tick seen_node)
     = completes (main_loop demo_tick (init 0)).
Proof.
  assert (H : (IRIS_LAST_SEEN_TIMEOUT
               < time_at_check silent_tick - iris_last_seen_time seen_node)%Q)
    by reflexivity.
  split; [exact H|].
  destruct (hard_disconnect_exit silent_tick seen_node [demo_tick]) as (T & _ & Tc & _).
  split; [exact (proj2 (T H))|].
  split; [exact Tc|].
  rewrite Tc. symmetry. apply main_loop_completes.
Defined.

(** What the tick of the witness does, effect by effect. *)
Example silent_tick_effects :
  effects (main_loop silent_tick seen_node) =
  [ Publish_drive_command
      {| controller_present := true; ignore_drive_control := true;
         drive_twist_linear_x := 0.5%float; drive_twist_angular_z := (-0.5)%float |};
    Print_Arm;
    Publish_iris_status {| iris_connected := true; voltage_24v := 24 |};
    Print_not_seen;
    Destroy_node ].
Proof. vm_compute. reflexivity. Qed.

(** *** Further properties of the controller node *)

(** With seventeen registers or more, no broadcast raises. *)
Lemma broadcasts_seventeen (s : node) :
  (17 <= length (registers s))%nat ->
  broadcasts s =
  {| final := s;
     effects :=
       (if nth 12 (registers s) 0 <? SBUS_MID
        then [Publish_drive_command
                (drive_command (nth 0 (registers s) 0) (nth 1 (registers s) 0)
                               (nth 13 (registers s) 0))]
        else [])
       ++ (if SBUS_MIN + SBUS_DEADZONE <? nth 12 (registers s) 0 then [Print_Arm] else [])
       ++ [Publish_iris_status {| iris_connected := true;
                                  voltage_24v := nth 16 (registers s) 0 |}];
     completes := Returned tt |}.
Proof.
  intro H.
  assert (Hk : forall k, (k < 17)%nat ->
               nth_error (registers s) k = Some (nth k (registers s) 0))
    by (intros k Hlt; apply nth_error_nth'; lia).
  unfold_broadcasts. unfold drive_command.
  repeat first
    [ rewrite (Hk 12%nat) by lia
    | rewrite (Hk 0%nat) by lia
    | rewrite (Hk 1%nat) by lia
    | rewrite (Hk 13%nat) by lia
    | rewrite (Hk 16%nat) by lia
    | run_step ];
    reflexivity.
Qed.

(** X1.  Whether a tick publishes the status is decided by the length of
    the register vector alone: with seventeen registers or more the tick
    publishes exactly one status, carrying register 16 as the voltage, and
    prints no error; with sixteen or fewer it publishes none and prints
    exactly one error, the index error.  In both cases it publishes at
    most one drive command. *)
Theorem status_iff_registers (i : tick_input) (s : node) :
  let regs := registers (final (read_registers i s)) in
  let out := effects (main_loop i s) in
  ((17 <= length regs)%nat ->
   iris_statuses out = [{| iris_connected := true; voltage_24v := nth 16 regs 0 |}]
   /\ errors out = [])
  /\ ((length regs <= 16)%nat ->
      iris_statuses out = [] /\ errors out = [IndexError])
  /\ (length (drive_commands out) <= 1)%nat.
Proof.
  intros regs out. unfold out.
  rewrite main_loop_iris_statuses, main_loop_errors, main_loop_drive_commands.
  split; [|split].
  - intro H. rewrite (broadcasts_seventeen _ H). cbn [effects completes]. fold regs.
    rewrite !iris_statuses_app.
    destruct (nth 12 regs 0 <? SBUS_MID), (SBUS_MIN + SBUS_DEADZONE <? nth 12 regs 0);
      split; reflexivity.
  - intro H.
    assert (Hn : nth_error regs (MODBUS_REGISTERS VOLTAGE_24V) = None)
      by (apply nth_error_None; exact H).
    destruct (broadcasts_no_voltage_register _ Hn) as (Hs & Hc).
    rewrite Hs, Hc. split; reflexivity.
  - unfold_broadcasts. repeat run_step; cbn; lia.
Qed.




(** X3.  Of the twenty registers the drive command reads four (the two
    sticks, the mode switch and the pause switch), the arm print one (the
    mode switch) and the status one (the voltage): two ticks whose vectors
    agree at these places publish the same, whatever the other registers
    hold. *)
Theorem drive_command_reads_four_registers (i i' : tick_input) (s s' : node) :
  let regs := registers (final (read_registers i s)) in
  let regs' := registers (final (read_registers i' s')) in
  length regs = 20%nat -> length regs' = 20%nat ->
  (nth 0 regs 0 = nth 0 regs' 0 -> nth 1 regs 0 = nth 1 regs' 0 ->
   nth 12 regs 0 = nth 12 regs' 0 -> nth 13 regs 0 = nth 13 regs' 0 ->
   drive_commands (effects (main_loop i s)) = drive_commands (effects (main_loop i' s')))
  /\ (nth 12 regs 0 = nth 12 regs' 0 ->
      prints_Arm (effects (main_loop i s)) = prints_Arm (effects (main_loop i' s')))
  /\ (nth 16 regs 0 = nth 16 regs' 0 ->
      iris_statuses (effects (main_loop i s)) = iris_statuses (effects (main_loop i' s'))).
Proof.
  intros regs regs' Hlen Hlen'.
  rewrite !main_loop_drive_commands, !main_loop_iris_statuses, !main_loop_prints_Arm.
  rewrite (broadcasts_twenty _ Hlen), (broadcasts_twenty _ Hlen').
  cbv zeta. cbn [effects MODBUS_REGISTERS]. fold regs regs'.
  rewrite !drive_commands_app, !iris_statuses_app, !prints_Arm_app.
  split; [|split].
  - intros <- <- <- <-.
    destruct (nth 12 regs 0 <? SBUS_MID), (SBUS_MIN + SBUS_DEADZONE <? nth 12 regs 0);
      reflexivity.
  - intros <-.
    destruct (nth 12 regs 0 <? SBUS_MID), (nth 12 regs' 0 <? SBUS_MID),
      (SBUS_MIN + SBUS_DEADZONE <? nth 12 regs 0); reflexivity.
  - intros <-.
    destruct (nth 12 regs 0 <? SBUS_MID), (nth 12 regs' 0 <? SBUS_MID),
      (SBUS_MIN + SBUS_DEADZONE <? nth 12 regs 0),
      (SBUS_MIN + SBUS_DEADZONE <? nth 12 regs' 0); reflexivity.
Qed.

Lemma drive_command_reads_four_registers_witness :
  length (registers (final (read_registers demo_tick (init 0)))) = 20%nat
  /\ length (registers (final (read_registers (tick_reading busy_registers) (init 0))))
     = 20%nat
  /\ demo_registers <> busy_registers
  /\ drive_commands (effects (main_loop demo_tick (init 0))) =
     drive_commands (effects (main_loop (tick_reading busy_registers) (init 0))).
Proof.
  assert (H1 : length (registers (final (read_registers demo_tick (init 0)))) = 20%nat)
    by reflexivity.
  assert (H2 : length (registers (final (read_registers (tick_reading busy_registers)
                                            (init 0)))) = 20%nat) by reflexivity.
  split; [exact H1|]. split; [exact H2|]. split; [discriminate|].
  pose proof (drive_command_reads_four_registers demo_tick (tick_reading busy_registers)
                (init 0) (init 0) H1 H2) as T.
  cbv zeta in T. destruct T as (T1 & _).
  exact (T1 eq_refl eq_refl eq_refl eq_refl).
Defined.

Lemma upto_In (n : nat) (lo v : Z) :
  lo <= v < lo + Z.of_nat n -> In v (upto n lo).
Proof.
  revert lo. induction n as [|n IH]; intros lo H.
  - cbn in H. lia.
  - cbn [upto]. destruct (Z.eq_dec v lo) as [->|Hne]; [left; reflexivity|].
    right. apply IH. lia.
Qed.

Lemma between_In (lo hi v : Z) : lo <= v <= hi -> In v (between lo hi).
Proof. intro H. unfold between. apply upto_In. lia. Qed.

Lemma drive_command_any_ignore (l r a b : Z) :
  drive_twist_linear_x (drive_command l r a) = drive_twist_linear_x (drive_command l r b)
  /\ drive_twist_angular_z (drive_command l r a)
     = drive_twist_angular_z (drive_command l r b).
Proof. unfold drive_command. destruct ((l =? 0) && (r =? 0)); split; reflexivity. Qed.

Lemma all_mix_straight : forallb mixes_straight (between 1 65535) = true.
Proof. vm_compute. reflexivity. Qed.

Lemma all_mix_within_unit :
  forallb (fun l => forallb (mixes_within_unit l) (between SBUS_MIN SBUS_MAX))
          (between SBUS_MIN SBUS_MAX) = true.
Proof. vm_cast_no_check (eq_refl true). Qed.

(** The one drive command of a tick in drive mode with twenty registers. *)
Lemma drive_mode_commands (i : tick_input) (s : node) :
  let regs := registers (final (read_registers i s)) in
  length regs = 20%nat ->
  nth 12 regs 0 < SBUS_MID ->
  drive_commands (effects (main_loop i s)) =
  [drive_command (nth 0 regs 0) (nth 1 regs 0) (nth 13 regs 0)].
Proof.
  intros regs Hlen Hmode.
  rewrite main_loop_drive_commands, (broadcasts_twenty _ Hlen).
  cbv zeta. cbn [effects MODBUS_REGISTERS]. fold regs.
  apply Z.ltb_lt in Hmode. rewrite Hmode, !drive_commands_app.
  destruct (SBUS_MIN + SBUS_DEADZONE <? nth 12 regs 0); reflexivity.
Qed.

(** X4.  In drive mode, with both sticks at the same non-zero register
    value [v], the command turns nowhere (angular exactly 0) and its speed
    is [normalize v], for every value a 16-bit register can hold: the
    floating-point mean of two equal values and their halved difference
    lose nothing. *)
Theorem equal_sticks_drive_straight (i : tick_input) (s : node) (v : Z) :
  let regs := registers (final (read_registers i s)) in
  length regs = 20%nat ->
  nth 12 regs 0 < SBUS_MID ->
  nth 0 regs 0 = v -> nth 1 regs 0 = v ->
  1 <= v <= 65535 ->
  drive_commands (effects (main_loop i s)) =
  [{| controller_present := true;
      ignore_drive_control := SBUS_MID <? nth 13 regs 0;
      drive_twist_linear_x := normalize v;
      drive_twist_angular_z := 0%float |}].
Proof.
  intros regs Hlen Hmode H0 H1 Hv.
  rewrite (drive_mode_commands i s Hlen Hmode). fold regs. rewrite H0, H1.
  pose proof (proj1 (forallb_forall _ _) all_mix_straight v (between_In 1 65535 v Hv))
    as Hs.
  unfold mixes_straight in Hs. cbv zeta in Hs.
  apply andb_true_iff in Hs. destruct Hs as (Ha & Hl).
  apply FloatAxioms.Leibniz.eqb_spec in Ha, Hl.
  destruct (drive_command_any_ignore v v (nth 13 regs 0) 0) as (El & Ea).
  rewrite <- El in Hl. rewrite <- Ea in Ha.
  revert Ha Hl. unfold drive_command.
  assert (Hz : (v =? 0) && (v =? 0) = false).
  { destruct (Z.eqb_spec v 0); [lia | reflexivity]. }
  rewrite Hz. cbn [drive_twist_linear_x drive_twist_angular_z].
  intros -> ->. reflexivity.
Qed.

Lemma equal_sticks_drive_straight_witness :
  drive_commands
    (effects (main_loop (tick_reading [1500; 1500; 0; 0; 0; 0; 0; 0; 0; 0; 0; 0; 500;
                                       1500; 0; 0; 24; 0; 0; 0]) (init 0))) =
  [{| controller_present := true;
      ignore_drive_control := true;
      drive_twist_linear_x := normalize 1500;
      drive_twist_angular_z := 0%float |}].
Proof.
  apply (equal_sticks_drive_straight
           (tick_reading [1500; 1500; 0; 0; 0; 0; 0; 0; 0; 0; 0; 0; 500;
                          1500; 0; 0; 24; 0; 0; 0]) (init 0) 1500);
    try reflexivity.
  lia.
Defined.

(** X5.  In drive mode, with both sticks inside the calibrated range
    [SBUS_MIN .. SBUS_MAX], the one command published has its linear and
    its angular part within [-1, 1], checked over every pair of values. *)
Theorem calibrated_sticks_within_unit (i : tick_input) (s : node) :
  let regs := registers (final (read_registers i s)) in
  length regs = 20%nat ->
  nth 12 regs 0 < SBUS_MID ->
  SBUS_MIN <= nth 0 regs 0 <= SBUS_MAX ->
  SBUS_MIN <= nth 1 regs 0 <= SBUS_MAX ->
  exists command,
    drive_commands (effects (main_loop i s)) = [command]
    /\ within_unit (drive_twist_linear_x command) = true
    /\ within_unit (drive_twist_angular_z command) = true.
Proof.
  intros regs Hlen Hmode Hl Hr.
  rewrite (drive_mode_commands i s Hlen Hmode). fold regs.
  eexists. split; [reflexivity|].
  pose proof (proj1 (forallb_forall _ _) all_mix_within_unit _
                (between_In SBUS_MIN SBUS_MAX _ Hl)) as H1.
  cbv beta in H1.
  pose proof (proj1 (forallb_forall _ _) H1 _ (between_In SBUS_MIN SBUS_MAX _ Hr)) as H2.
  unfold mixes_within_unit in H2. cbv zeta in H2.
  destruct (drive_command_any_ignore (nth 0 regs 0) (nth 1 regs 0) (nth 13 regs 0) 0)
    as (El & Ea).
  rewrite El, Ea. apply andb_true_iff in H2. exact H2.
Qed.

Lemma calibrated_sticks_within_unit_witness :
  exists command,
    drive_commands (effects (main_loop demo_tick (init 0))) = [command]
    /\ within_unit (drive_twist_linear_x command) = true
    /\ within_unit (drive_twist_angular_z command) = true.
Proof.
  apply (calibrated_sticks_within_unit demo_tick (init 0)); try reflexivity.
  - vm_compute. split; discriminate.
  - vm_compute. split; discriminate.
Defined.

Lemma main_loop_self_iris_connected (i : tick_input) (s : node) :
  self_iris_connected s = false -> self_iris_connected (final (main_loop i s)) = false.
Proof.
  intro H. rewrite main_loop_run. cbn [final]. rewrite read_registers_run. cbn [final].
  destruct (bus_read i); [exact H | reflexivity].
Qed.

Lemma spin_self_iris_connected (ticks : list tick_input) :
  forall s, self_iris_connected s = false ->
            self_iris_connected (node_left (spin ticks s)) = false.
Proof.
  induction ticks as [|i ticks IH]; intros s H; [exact H|].
  pose proof (main_loop_self_iris_connected i s H) as H1.
  destruct (destroys (effects (main_loop i s))) eqn:Hd.
  - rewrite (spin_last i ticks s Hd). exact H1.
  - rewrite (spin_next i ticks s Hd). cbn [node_left]. apply IH. exact H1.
Qed.

(** X6.  [self.iris_connected] is written with [False] only: it is false
    after any number of ticks from the start, whether the reads succeed or
    not, and no tick makes it true. *)
Theorem self_iris_connected_never_set (now : Q) (ticks : list tick_input) :
  self_iris_connected (node_left (spin ticks (init now))) = false
  /\ (forall i s, self_iris_connected (final (main_loop i s)) = true ->
                  self_iris_connected s = true).
Proof.
  split.
  - apply spin_self_iris_connected. reflexivity.
  - intros i s H. destruct (self_iris_connected s) eqn:E; [reflexivity|].
    rewrite (main_loop_self_iris_connected i s E) in H. discriminate H.
Qed.

Lemma seen_in_time_tick (i : tick_input) (s : node) :
  seen_in_time i ->
  destroys (effects (main_loop i s)) = false
  /\ length (iris_statuses (effects (main_loop i s))) = 1%nat
  /\ errors (effects (main_loop i s)) = [].
Proof.
  intros (regs & Hb & Hlen & Ht).
  assert (Hr : registers (final (read_registers i s)) = regs)
    by (rewrite read_registers_run; cbn [final]; rewrite Hb; reflexivity).
  assert (Hl : iris_last_seen_time (final (read_registers i s)) = time_after_read i)
    by (rewrite read_registers_run; cbn [final]; rewrite Hb; reflexivity).
  assert (H17 : (17 <= length (registers (final (read_registers i s))))%nat)
    by (rewrite Hr; exact Hlen).
  rewrite main_loop_iris_statuses, main_loop_errors, main_loop_destroys.
  rewrite Hl, (proj2 (Qgtb_false _ _) Ht).
  rewrite (broadcasts_seventeen _ H17). cbn [effects completes].
  rewrite !iris_statuses_app.
  destruct (_ <? SBUS_MID), (SBUS_MIN + SBUS_DEADZONE <? _); repeat split.
Qed.

(** X7.  As long as every tick reads at least seventeen registers and
    checks the clock within the timeout of its read, the node goes on: no
    tick destroys it, each tick publishes exactly one status, and nothing
    is printed as an error. *)
Theorem alive_while_seen (ticks : list tick_input) :
  forall s,
    Forall seen_in_time ticks ->
    ended (spin ticks s) = Continue
    /\ length (iris_statuses (spun_effects (spin ticks s))) = length ticks
    /\ errors (spun_effects (spin ticks s)) = [].
Proof.
  induction ticks as [|i ticks IH]; intros s H.
  - repeat split.
  - inversion H as [|? ? Hi Hrest]; subst.
    destruct (seen_in_time_tick i s Hi) as (Hc & Hs & He).
    destruct (IH (final (main_loop i s)) Hrest) as (I1 & I2 & I3).
    rewrite (spin_next i ticks s Hc). cbn [ended spun_effects].
    rewrite iris_statuses_app, errors_app, length_app, Hs, He, I2, I3.
    repeat split. exact I1.
Qed.

Lemma alive_while_seen_witness :
  Forall seen_in_time [demo_tick; tick_reading gap_registers]
  /\ ended (spin [demo_tick; tick_reading gap_registers] (init 0)) = Continue.
Proof.
  assert (H : Forall seen_in_time [demo_tick; tick_reading gap_registers]).
  { repeat constructor.
    - exists demo_registers. repeat split. cbn. lia. discriminate.
    - exists gap_registers. repeat split. cbn. lia. discriminate. }
  split; [exact H|].
  exact (proj1 (alive_while_seen [demo_tick; tick_reading gap_registers] (init 0) H)).
Defined.

End IrisControllerFacts.

(** ** The system status node *)
Module SystemStatusesFacts.

Import SystemStatuses.
Local Open Scope Z_scope.

(** *** The seven blocks of [main_loop] in one form *)

Section Blocks.

Variable i : tick_input.

Lemma battery_check_block s : battery_check i s = block Battery i s.
Proof.
  unfold battery_check, block, due, differs. cbn.
  destruct (_ || _), (Qgtb _ _); reflexivity.
Qed.

Lemma jetson_check_block s : jetson_check i s = block Jetson i s.
Proof.
  unfold jetson_check, block, due, differs. cbn.
  destruct (_ || _), (Qgtb _ _); reflexivity.
Qed.

Lemma camera_check_block s : camera_check s = block Camera i s.
Proof. reflexivity. Qed.

Lemma frsky_check_block s : frsky_check s = block FrSky i s.
Proof. reflexivity. Qed.

Lemma wheel_check_block s : wheel_check s = block Wheel i s.
Proof. reflexivity. Qed.

Lemma gps_check_block s : gps_check s = block GPS i s.
Proof. reflexivity. Qed.

Lemma misc_check_block s : misc_check s = block Misc i s.
Proof. reflexivity. Qed.

Lemma checks_blocks s :
  and_then (battery_check i)
    (and_then camera_check
      (and_then (jetson_check i)
        (and_then frsky_check
          (and_then wheel_check
            (and_then gps_check
              (and_then misc_check clear_manual_update)))))) s =
  run_blocks i blocks clear_manual_update s.
Proof.
  unfold run_blocks, blocks, fold_right, and_then.
  rewrite battery_check_block, camera_check_block, jetson_check_block,
    frsky_check_block, wheel_check_block, gps_check_block, misc_check_block.
  reflexivity.
Qed.

Lemma same_for_refl c s : same_for c s s.
Proof. repeat split. Qed.

Lemma same_for_trans c s1 s2 s3 :
  same_for c s1 s2 -> same_for c s2 s3 -> same_for c s1 s3.
Proof.
  intros (A1 & A2 & A3 & A4) (B1 & B2 & B3 & B4).
  repeat split; congruence.
Qed.

Lemma category_differs_ext c m m' p p' :
  message_of c m' = message_of c m ->
  message_of c p' = message_of c p ->
  category_differs c m' p' = category_differs c m p.
Proof.
  destruct c; cbn; intros Hm Hp; injection Hm as ->; injection Hp as ->; reflexivity.
Qed.

Lemma due_same c s s' : same_for c s s' -> due c i s' = due c i s.
Proof.
  intros (Hc & Hm & Hp & Hl).
  assert (Hd : differs c s' = differs c s).
  { unfold differs. apply category_differs_ext; [rewrite Hc; reflexivity | exact Hp]. }
  destruct c; unfold due; cbn [last_message_sent] in Hl; rewrite ?Hd, ?Hm, ?Hl;
    reflexivity.
Qed.

Lemma record_published_current c s : current (record_published c i s) = current s.
Proof. destruct c; reflexivity. Qed.

Lemma record_published_manual c s :
  manual_update_requested (record_published c i s) = manual_update_requested s.
Proof. destruct c; reflexivity. Qed.

Lemma record_published_subscriptions c s :
  subscriptions (record_published c i s) = subscriptions s.
Proof. destruct c; reflexivity. Qed.

(** The values published last become the message, field by field. *)
Lemma record_published_own c s :
  message_of c (previous (record_published c i s)) = message_of c (current s).
Proof.
  destruct c; cbn.
  - destruct (battery_message (current s)); reflexivity.
  - destruct (camera_msg (current s)); reflexivity.
  - destruct (wheel_msg (current s)); reflexivity.
  - destruct (FrSky_msg (current s)); reflexivity.
  - destruct (GPS_msg (current s)); reflexivity.
  - destruct (jetson_msg (current s)); reflexivity.
  - destruct (misc_msg (current s)); reflexivity.
Qed.

Lemma record_published_other c c' s :
  c' <> c -> same_for c' s (record_published c i s).
Proof.
  intro Hne.
  destruct c, c'; try (exfalso; apply Hne; reflexivity);
    repeat split; reflexivity.
Qed.

Lemma block_current c s : current (fst (block c i s)) = current s.
Proof.
  unfold block. destruct (due c i s); [apply record_published_current | reflexivity].
Qed.

Lemma block_manual c s :
  manual_update_requested (fst (block c i s)) = manual_update_requested s.
Proof.
  unfold block. destruct (due c i s); [apply record_published_manual | reflexivity].
Qed.

Lemma block_subscriptions c s : subscriptions (fst (block c i s)) = subscriptions s.
Proof.
  unfold block. destruct (due c i s); [apply record_published_subscriptions | reflexivity].
Qed.

Lemma block_other c c' s : c' <> c -> same_for c' s (fst (block c i s)).
Proof.
  intro Hne. unfold block.
  destruct (due c i s); [apply record_published_other; exact Hne | apply same_for_refl].
Qed.

Lemma block_own c s :
  message_of c (previous (fst (block c i s))) =
  if due c i s then message_of c (current s) else message_of c (previous s).
Proof.
  unfold block. destruct (due c i s); [apply record_published_own | reflexivity].
Qed.

Lemma block_published c s :
  snd (block c i s) = if due c i s then [message_of c (current s)] else [].
Proof. unfold block. destruct (due c i s); reflexivity. Qed.

(** The blocks of the categories [cs], one after another. *)
Lemma run_blocks_cons c cs k s :
  run_blocks i (c :: cs) k s =
  (fst (run_blocks i cs k (fst (block c i s))),
   snd (block c i s) ++ snd (run_blocks i cs k (fst (block c i s)))).
Proof. reflexivity. Qed.

Lemma run_blocks_current cs s : current (fst (run_blocks i cs done s)) = current s.
Proof.
  revert s. induction cs as [|c cs IH]; intro s; [reflexivity|].
  rewrite run_blocks_cons. cbn [fst]. rewrite IH. apply block_current.
Qed.

Lemma run_blocks_manual cs s :
  manual_update_requested (fst (run_blocks i cs done s)) = manual_update_requested s.
Proof.
  revert s. induction cs as [|c cs IH]; intro s; [reflexivity|].
  rewrite run_blocks_cons. cbn [fst]. rewrite IH. apply block_manual.
Qed.

Lemma run_blocks_subscriptions cs s :
  subscriptions (fst (run_blocks i cs done s)) = subscriptions s.
Proof.
  revert s. induction cs as [|c cs IH]; intro s; [reflexivity|].
  rewrite run_blocks_cons. cbn [fst]. rewrite IH. apply block_subscriptions.
Qed.

Lemma run_blocks_other c cs s :
  ~ In c cs -> same_for c s (fst (run_blocks i cs done s)).
Proof.
  revert s. induction cs as [|c0 cs IH]; intros s Hn; [apply same_for_refl|].
  rewrite run_blocks_cons. cbn [fst].
  apply same_for_trans with (fst (block c0 i s)).
  - apply block_other. intro E. apply Hn. left. symmetry. exact E.
  - apply IH. intro Hin. apply Hn. right. exact Hin.
Qed.

Lemma run_blocks_published cs s :
  NoDup cs ->
  snd (run_blocks i cs done s) =
  flat_map (fun c => if due c i s then [message_of c (current s)] else []) cs.
Proof.
  revert s. induction cs as [|c cs IH]; intros s Hnd; [reflexivity|].
  inversion Hnd as [|? ? Hn Hnd']; subst.
  rewrite run_blocks_cons. cbn [snd flat_map].
  rewrite block_published, IH by exact Hnd'.
  f_equal. apply flat_map_agree. intros c' Hin.
  assert (Hne : c' <> c) by (intro E; subst; contradiction).
  rewrite (due_same c' s _ (block_other c c' s Hne)), block_current. reflexivity.
Qed.

Lemma run_blocks_own c cs s :
  NoDup cs -> In c cs ->
  message_of c (previous (fst (run_blocks i cs done s))) =
  if due c i s then message_of c (current s) else message_of c (previous s).
Proof.
  revert s. induction cs as [|c0 cs IH]; intros s Hnd Hin; [contradiction|].
  inversion Hnd as [|? ? Hn Hnd']; subst.
  rewrite run_blocks_cons. cbn [fst].
  destruct Hin as [->|Hin].
  - destruct (run_blocks_other c cs (fst (block c i s)) Hn) as (_ & _ & Hp & _).
    rewrite Hp. apply block_own.
  - assert (Hne : c <> c0) by (intro E; subst; contradiction).
    rewrite IH by assumption.
    pose proof (block_other c0 c s Hne) as Hs.
    rewrite (due_same c s _ Hs), block_current.
    destruct Hs as (_ & _ & Hp & _). rewrite Hp. reflexivity.
Qed.

Lemma run_blocks_then cs k s :
  run_blocks i cs k s =
  (fst (k (fst (run_blocks i cs done s))),
   snd (run_blocks i cs done s) ++ snd (k (fst (run_blocks i cs done s)))).
Proof.
  revert s. induction cs as [|c cs IH]; intro s.
  - cbn. destruct (k s); reflexivity.
  - rewrite !run_blocks_cons. cbn [fst snd]. rewrite IH. cbn [fst snd].
    rewrite app_assoc. reflexivity.
Qed.

Lemma block_last c s :
  last_message_sent c (fst (block c i s)) =
  if due c i s && rate_limited c then time_sent c i else last_message_sent c s.
Proof.
  unfold block. destruct (due c i s); [|reflexivity].
  destruct c; reflexivity.
Qed.

Lemma run_blocks_last c cs s :
  NoDup cs -> In c cs ->
  last_message_sent c (fst (run_blocks i cs done s)) =
  if due c i s && rate_limited c then time_sent c i else last_message_sent c s.
Proof.
  revert s. induction cs as [|c0 cs IH]; intros s Hnd Hin; [contradiction|].
  inversion Hnd as [|? ? Hn Hnd']; subst.
  rewrite run_blocks_cons. cbn [fst].
  destruct Hin as [->|Hin].
  - destruct (run_blocks_other c cs (fst (block c i s)) Hn) as (_ & _ & _ & Hl).
    rewrite Hl. apply block_last.
  - assert (Hne : c <> c0) by (intro E; subst; contradiction).
    rewrite IH by assumption.
    pose proof (block_other c0 c s Hne) as Hs.
    rewrite (due_same c s _ Hs).
    destruct Hs as (_ & _ & _ & Hl). rewrite Hl. reflexivity.
Qed.

Lemma blocks_NoDup : NoDup blocks.
Proof.
  unfold blocks.
  repeat (constructor; [cbn; intuition discriminate|]). constructor.
Qed.

Lemma blocks_all c : In c blocks.
Proof. destruct c; cbn; tauto. Qed.

End Blocks.

(** *** The refresh *)

(** The refresh raises exactly when the call of [sensors] returns. *)
Lemma pull_new_message_values_escaped p s :
  snd (pull_new_message_values p s) =
  match sensors_output p with
  | Some _ => Some TypeError
  | None => None
  end.
Proof.
  unfold pull_new_message_values, set_jetson_usage_information.
  destruct (sensors_output p); reflexivity.
Qed.

Lemma pull_new_message_values_previous p s : previous (refreshed p s) = previous s.
Proof.
  unfold refreshed, pull_new_message_values, set_jetson_usage_information.
  destruct (sensors_output p); vm_compute; reflexivity.
Qed.

Lemma pull_new_message_values_manual p s :
  manual_update_requested (refreshed p s) = manual_update_requested s.
Proof.
  unfold refreshed, pull_new_message_values, set_jetson_usage_information.
  destruct (sensors_output p); vm_compute; reflexivity.
Qed.

Lemma pull_new_message_values_last c p s :
  last_message_sent c (refreshed p s) = last_message_sent c s.
Proof.
  unfold refreshed, pull_new_message_values, set_jetson_usage_information.
  destruct (sensors_output p), c; vm_compute; reflexivity.
Qed.

Lemma pull_new_message_values_GPS p s :
  GPS_msg (current (refreshed p s)) = GPS_msg (current s).
Proof.
  unfold refreshed, pull_new_message_values, set_jetson_usage_information.
  destruct (sensors_output p); vm_compute; reflexivity.
Qed.

(** A refresh that returns has made one subscription more; a refresh that
    raises has not come to it. *)
Lemma pull_new_message_values_subscriptions p s :
  subscriptions (refreshed p s) =
  match sensors_output p with
  | Some _ => subscriptions s
  | None =>
      subscriptions s ++ [ {| topic := "/rover_control/command_control/iris_drive";
                              called_back := frsky_callback |} ]
  end.
Proof.
  unfold refreshed, pull_new_message_values, set_jetson_usage_information.
  destruct (sensors_output p); vm_compute; reflexivity.
Qed.

Lemma pull_new_message_values_twice p s :
  current (refreshed p (refreshed p s)) = current (refreshed p s).
Proof.
  unfold refreshed, pull_new_message_values, set_jetson_usage_information.
  destruct (sensors_output p); vm_compute; reflexivity.
Qed.

(** *** The tick in closed form *)

Lemma category_eqb_eq a b : category_eqb a b = true <-> a = b.
Proof. destruct a, b; cbn; split; intro H; try reflexivity; discriminate H. Qed.

Lemma category_of_message_of c m : category_of (message_of c m) = c.
Proof. destruct c; reflexivity. Qed.

Lemma existsb_category c cs : existsb (category_eqb c) cs = true <-> In c cs.
Proof.
  rewrite existsb_exists. split.
  - intros (x & Hx & E). apply category_eqb_eq in E. subst. exact Hx.
  - intro H. exists c. split; [exact H | apply category_eqb_eq; reflexivity].
Qed.

Lemma publishes_app c a b : publishes c (a ++ b) = (publishes c a + publishes c b)%nat.
Proof. unfold publishes. rewrite filter_app, length_app. reflexivity. Qed.

(** Each category of [cs] that is due contributes one message of its own. *)
Lemma publishes_flat_map (d : category -> bool) (m : statuses) c cs :
  NoDup cs ->
  publishes c (flat_map (fun c' => if d c' then [message_of c' m] else []) cs) =
  if existsb (category_eqb c) cs && d c then 1%nat else 0%nat.
Proof.
  induction cs as [|c0 cs IH]; intro Hnd; [reflexivity|].
  inversion Hnd as [|? ? Hn Hnd']; subst.
  cbn [flat_map existsb]. rewrite publishes_app, IH by exact Hnd'. clear IH.
  destruct (category_eqb c c0) eqn:E.
  - apply category_eqb_eq in E. subst c0.
    assert (Hx : existsb (category_eqb c) cs = false).
    { destruct (existsb (category_eqb c) cs) eqn:X; [|reflexivity].
      apply existsb_category in X. contradiction. }
    rewrite Hx. cbn [orb andb].
    destruct (d c); [|reflexivity].
    unfold publishes. cbn [filter]. rewrite category_of_message_of.
    rewrite (proj2 (category_eqb_eq c c) eq_refl). reflexivity.
  - cbn [orb].
    assert (H0 : publishes c (if d c0 then [message_of c0 m] else []) = 0%nat).
    { destruct (d c0); [|reflexivity].
      unfold publishes. cbn [filter]. rewrite category_of_message_of.
      assert (E' : category_eqb c0 c = false).
      { destruct (category_eqb c0 c) eqn:X; [|reflexivity].
        apply category_eqb_eq in X. subst.
        rewrite (proj2 (category_eqb_eq c c) eq_refl) in E. discriminate E. }
      rewrite E'. reflexivity. }
    rewrite H0. reflexivity.
Qed.

Lemma set_manual_current b s : current (set_manual_update_requested b s) = current s.
Proof. reflexivity. Qed.

Lemma set_manual_previous b s : previous (set_manual_update_requested b s) = previous s.
Proof. reflexivity. Qed.

Lemma set_manual_subscriptions b s :
  subscriptions (set_manual_update_requested b s) = subscriptions s.
Proof. reflexivity. Qed.

Lemma set_manual_last c b s :
  last_message_sent c (set_manual_update_requested b s) = last_message_sent c s.
Proof. destruct c; reflexivity. Qed.

Section Tick.

Variables (i : tick_input) (s1 : node).

Lemma tick_published :
  snd (run_blocks i blocks clear_manual_update s1) =
  flat_map (fun c => if due c i s1 then [message_of c (current s1)] else []) blocks.
Proof.
  rewrite run_blocks_then. cbn [snd clear_manual_update].
  rewrite app_nil_r. apply run_blocks_published. apply blocks_NoDup.
Qed.

Lemma tick_node :
  fst (run_blocks i blocks clear_manual_update s1) =
  set_manual_update_requested false (fst (run_blocks i blocks done s1)).
Proof.
  rewrite run_blocks_then. cbn [fst clear_manual_update].
  generalize (fst (run_blocks i blocks done s1)). intros [[] ? ? ? ? ?]; reflexivity.
Qed.

Lemma tick_current : current (fst (run_blocks i blocks clear_manual_update s1)) = current s1.
Proof. rewrite tick_node, set_manual_current. apply run_blocks_current. Qed.

Lemma tick_manual : manual_update_requested (fst (run_blocks i blocks clear_manual_update s1)) = false.
Proof. rewrite tick_node. reflexivity. Qed.

Lemma tick_subscriptions : subscriptions (fst (run_blocks i blocks clear_manual_update s1)) = subscriptions s1.
Proof.
  rewrite tick_node, set_manual_subscriptions.
  apply run_blocks_subscriptions.
Qed.

Lemma tick_previous c :
  message_of c (previous (fst (run_blocks i blocks clear_manual_update s1))) =
  if due c i s1 then message_of c (current s1) else message_of c (previous s1).
Proof.
  rewrite tick_node, set_manual_previous.
  apply run_blocks_own; [apply blocks_NoDup | apply blocks_all].
Qed.

Lemma tick_last c :
  last_message_sent c (fst (run_blocks i blocks clear_manual_update s1)) =
  if due c i s1 && rate_limited c then time_sent c i else last_message_sent c s1.
Proof.
  rewrite tick_node, set_manual_last.
  apply run_blocks_last; [apply blocks_NoDup | apply blocks_all].
Qed.

Lemma tick_publishes c :
  publishes c (snd (run_blocks i blocks clear_manual_update s1)) = if due c i s1 then 1%nat else 0%nat.
Proof.
  rewrite tick_published.
  rewrite (publishes_flat_map (fun c => due c i s1) (current s1) c blocks blocks_NoDup).
  rewrite (proj2 (existsb_category c blocks) (blocks_all c)). reflexivity.
Qed.

Lemma tick_In c :
  due c i s1 = true -> In (message_of c (current s1)) (snd (run_blocks i blocks clear_manual_update s1)).
Proof.
  intro H. rewrite tick_published. apply in_flat_map.
  exists c. split; [apply blocks_all|]. rewrite H. left. reflexivity.
Qed.

End Tick.

(** The tick on its two paths: the refresh raises and the tick ends there,
    or the refresh returns and the blocks run. *)
Lemma main_loop_escaped i s :
  escaped (main_loop i s) =
  match sensors_output (probed i) with
  | Some _ => Some TypeError
  | None => None
  end.
Proof.
  unfold main_loop. cbv zeta.
  rewrite pull_new_message_values_escaped.
  destruct (sensors_output (probed i)); reflexivity.
Qed.

Lemma main_loop_returns_iff i s :
  escaped (main_loop i s) = None <-> sensors_output (probed i) = None.
Proof.
  rewrite main_loop_escaped.
  destruct (sensors_output (probed i)); split; intro H; try reflexivity; discriminate H.
Qed.

Lemma main_loop_raises i s :
  escaped (main_loop i s) <> None ->
  main_loop i s =
  {| node_after := refreshed (probed i) s; published := []; escaped := Some TypeError |}.
Proof.
  intro H.
  pose proof (main_loop_escaped i s) as He.
  pose proof (pull_new_message_values_escaped (probed i) s) as Hp.
  destruct (sensors_output (probed i)).
  - unfold main_loop, refreshed. cbv zeta. rewrite Hp. reflexivity.
  - contradiction.
Qed.

Lemma main_loop_returns i s :
  escaped (main_loop i s) = None ->
  main_loop i s =
  {| node_after := fst (run_blocks i blocks clear_manual_update (refreshed (probed i) s));
     published := snd (run_blocks i blocks clear_manual_update (refreshed (probed i) s));
     escaped := None |}.
Proof.
  intro H. apply main_loop_returns_iff in H.
  pose proof (pull_new_message_values_escaped (probed i) s) as Hp.
  rewrite H in Hp.
  unfold main_loop, refreshed. cbv zeta. rewrite Hp, checks_blocks. reflexivity.
Qed.

(** On either path. *)
Lemma main_loop_cases i s :
  (escaped (main_loop i s) = None)
  \/ (escaped (main_loop i s) = Some TypeError
      /\ published (main_loop i s) = []
      /\ node_after (main_loop i s) = refreshed (probed i) s).
Proof.
  destruct (escaped (main_loop i s)) eqn:E; [right | left; reflexivity].
  assert (H : escaped (main_loop i s) <> None) by (rewrite E; discriminate).
  rewrite (main_loop_raises i s H) in *. cbn in *.
  repeat split. exact (eq_sym E).
Qed.

Section MainLoop.

Variables (i : tick_input) (s : node).
Hypothesis returns : escaped (main_loop i s) = None.

Lemma main_loop_published :
  published (main_loop i s) =
  flat_map (fun c => if due c i (refreshed (probed i) s)
                     then [message_of c (current (refreshed (probed i) s))]
                     else []) blocks.
Proof. rewrite (main_loop_returns i s returns). apply tick_published. Qed.

Lemma main_loop_current :
  current (node_after (main_loop i s)) = current (refreshed (probed i) s).
Proof. rewrite (main_loop_returns i s returns). apply tick_current. Qed.

Lemma main_loop_manual : manual_update_requested (node_after (main_loop i s)) = false.
Proof. rewrite (main_loop_returns i s returns). apply tick_manual. Qed.

Lemma main_loop_subscriptions :
  subscriptions (node_after (main_loop i s)) = subscriptions (refreshed (probed i) s).
Proof. rewrite (main_loop_returns i s returns). apply tick_subscriptions. Qed.

Lemma main_loop_previous c :
  message_of c (previous (node_after (main_loop i s))) =
  if due c i (refreshed (probed i) s)
  then message_of c (current (refreshed (probed i) s))
  else message_of c (previous s).
Proof.
  rewrite (main_loop_returns i s returns). cbn [node_after].
  rewrite tick_previous, pull_new_message_values_previous.
  reflexivity.
Qed.

Lemma main_loop_last c :
  last_message_sent c (node_after (main_loop i s)) =
  if due c i (refreshed (probed i) s) && rate_limited c
  then time_sent c i else last_message_sent c s.
Proof.
  rewrite (main_loop_returns i s returns). cbn [node_after].
  rewrite tick_last, pull_new_message_values_last.
  reflexivity.
Qed.

Lemma main_loop_publishes c :
  publishes c (published (main_loop i s)) =
  if due c i (refreshed (probed i) s) then 1%nat else 0%nat.
Proof. rewrite (main_loop_returns i s returns). apply tick_publishes. Qed.

Lemma main_loop_In c :
  due c i (refreshed (probed i) s) = true ->
  In (message_of c (current (refreshed (probed i) s))) (published (main_loop i s)).
Proof. rewrite (main_loop_returns i s returns). apply tick_In. Qed.

End MainLoop.

(** A tick whose refresh raises. *)
Lemma main_loop_raised_published i s :
  escaped (main_loop i s) <> None -> published (main_loop i s) = [].
Proof. intro H. rewrite (main_loop_raises i s H). reflexivity. Qed.

Lemma main_loop_raised_node i s :
  escaped (main_loop i s) <> None -> node_after (main_loop i s) = refreshed (probed i) s.
Proof. intro H. rewrite (main_loop_raises i s H). reflexivity. Qed.

(** Whether the tick returns or raises, the messages the callbacks write
    are left alone and nothing is published twice. *)
Lemma main_loop_any_current i s :
  current (node_after (main_loop i s)) = current (refreshed (probed i) s).
Proof.
  destruct (main_loop_cases i s) as [H|(_ & _ & H)].
  - apply main_loop_current. exact H.
  - rewrite H. reflexivity.
Qed.

Lemma main_loop_any_last c i s t :
  (last_message_sent c s <= t)%Q ->
  (time_sent c i <= t)%Q ->
  (last_message_sent c (node_after (main_loop i s)) <= t)%Q.
Proof.
  intros H1 H2.
  destruct (main_loop_cases i s) as [H|(_ & _ & H)].
  - rewrite (main_loop_last i s H c). destruct (_ && _); assumption.
  - rewrite H, pull_new_message_values_last. exact H1.
Qed.

(** *** The comparisons *)

(** For a category of booleans and integers the comparison of [main_loop]
    is the inequality of the two records. *)
Ltac same_record :=
  let H := fresh "H" in
  split;
  [ intro H; repeat match goal with C : _ /\ _ |- _ => destruct C end; subst; reflexivity
  | intro H; injection H; intros; subst; repeat split; reflexivity ].

Lemma category_differs_exact c m p :
  exact_fields c = true ->
  (category_differs c m p = false <-> message_of c m = message_of c p).
Proof.
  intro Hx.
  destruct c; try discriminate Hx; cbn [category_differs message_of].
  - unfold battery_differs. rewrite int_ne_false.
    destruct (battery_message m), (battery_message p); cbn. same_record.
  - unfold camera_differs. rewrite !orb_false_iff, !bool_ne_false.
    destruct (camera_msg m), (camera_msg p); cbn. same_record.
  - unfold wheel_differs. rewrite !orb_false_iff, !bool_ne_false.
    destruct (wheel_msg m), (wheel_msg p); cbn. same_record.
  - unfold frsky_differs. rewrite bool_ne_false.
    destruct (FrSky_msg m), (FrSky_msg p); cbn. same_record.
  - unfold misc_differs. rewrite !orb_false_iff, !bool_ne_false.
    destruct (misc_msg m), (misc_msg p); cbn. same_record.
Qed.

Lemma category_differs_exact_refl c m :
  exact_fields c = true -> category_differs c m m = false.
Proof. intro Hx. apply (category_differs_exact c m m Hx). reflexivity. Qed.

Lemma due_without_manual c i s :
  manual_update_requested s = false ->
  due c i s =
  differs c s
  && (if rate_limited c
      then Qgtb (time_check c i - last_message_sent c s) (minimum_period c)
      else true).
Proof.
  intro H. destruct c; unfold due; rewrite ?H, ?orb_false_r, ?andb_true_r; reflexivity.
Qed.

Lemma due_with_manual c i s :
  manual_update_requested s = true ->
  c <> GPS ->
  due c i s =
  if rate_limited c
  then Qgtb (time_check c i - last_message_sent c s) (minimum_period c)
  else true.
Proof.
  intros H Hc.
  destruct c; unfold due; rewrite ?H, ?orb_true_r; try reflexivity.
  exfalso. apply Hc. reflexivity.
Qed.

Lemma minimum_period_5 c : rate_limited c = true -> (minimum_period c == 5)%Q.
Proof. destruct c; intro H; try discriminate H; reflexivity. Qed.

(** After a tick that published category [c], a tick that finds the same
    record (free of NaN) and no new request does not publish it again. *)
Lemma no_second_publish (c : category) (i i2 : tick_input) (s : node) :
  let s1 := refreshed (probed i) s in
  let r := main_loop i s in
  let s2 := refreshed (probed i2) (node_after r) in
  escaped r = None ->
  publishes c (published r) = 1%nat ->
  message_of c (current s2) = message_of c (current s1) ->
  category_differs c (current s1) (current s1) = false ->
  publishes c (published (main_loop i2 (node_after r))) = 0%nat.
Proof.
  intros s1 r s2 Hret Hpub Hsame Hnan.
  assert (Hdue : due c i s1 = true).
  { unfold r in Hpub. rewrite (main_loop_publishes i s Hret) in Hpub. fold s1 in Hpub.
    destruct (due c i s1); [reflexivity | discriminate Hpub]. }
  assert (Hprev : message_of c (previous s2) = message_of c (current s1)).
  { unfold s2. rewrite pull_new_message_values_previous. unfold r.
    rewrite (main_loop_previous i s Hret). fold s1. rewrite Hdue. reflexivity. }
  assert (Hm : manual_update_requested s2 = false).
  { unfold s2. rewrite pull_new_message_values_manual.
    apply main_loop_manual. exact Hret. }
  destruct (main_loop_cases i2 (node_after r)) as [H2|(_ & H2 & _)];
    [|rewrite H2; reflexivity].
  rewrite (main_loop_publishes i2 (node_after r) H2). fold s2.
  rewrite (due_without_manual c i2 s2 Hm).
  unfold differs. rewrite (category_differs_ext c _ _ _ _ Hsame Hprev), Hnan.
  reflexivity.
Qed.

Lemma publishes_0_or_1 c i s :
  publishes c (published (main_loop i s)) = 0%nat
  \/ publishes c (published (main_loop i s)) = 1%nat.
Proof.
  destruct (main_loop_cases i s) as [H|(_ & H & _)].
  - rewrite (main_loop_publishes i s H). destruct (due _ _ _); auto.
  - rewrite H. left. reflexivity.
Qed.

Lemma publishes_1_due c i s :
  escaped (main_loop i s) = None ->
  (publishes c (published (main_loop i s)) = 1%nat <->
   due c i (refreshed (probed i) s) = true).
Proof.
  intro Hret. rewrite (main_loop_publishes i s Hret).
  destruct (due _ _ _); split; intro H; try reflexivity; discriminate H.
Qed.

Lemma publishes_0_due c i s :
  escaped (main_loop i s) = None ->
  (publishes c (published (main_loop i s)) = 0%nat <->
   due c i (refreshed (probed i) s) = false).
Proof.
  intro Hret. rewrite (main_loop_publishes i s Hret).
  destruct (due _ _ _); split; intro H; try reflexivity; discriminate H.
Qed.

(** *** Runs of events *)

Lemma deliver_last c e s :
  (forall i, e <> Timer i) ->
  last_message_sent c (node_after (deliver e s)) = last_message_sent c s.
Proof.
  intro H. destruct e; cbn [deliver node_after]; try (destruct c; reflexivity).
  exfalso. apply (H i). reflexivity.
Qed.

Lemma due_rate_limited c i s :
  rate_limited c = true -> due c i s = true ->
  (last_message_sent c s + minimum_period c < time_check c i)%Q.
Proof.
  intros Hr Hd.
  destruct c; try discriminate Hr; unfold due in Hd;
    apply andb_true_iff in Hd; destruct Hd as [_ Hd];
    apply Qgtb_true in Hd; cbn [last_message_sent minimum_period time_check]; lra.
Qed.

Lemma clock_ordered_check_sent c i t es :
  rate_limited c = true -> clock_ordered t (Timer i :: es) ->
  (t <= time_check c i)%Q /\ (time_check c i <= time_sent c i)%Q
  /\ (time_sent c i <= time_jetson_sent i)%Q.
Proof.
  intros Hr (H1 & H2 & H3 & H4 & _).
  destruct c; try discriminate Hr; cbn [time_check time_sent]; repeat split; lra.
Qed.

(** An event that is not the timer publishes nothing and leaves the
  times of the last publications alone. *)
Ltac quiet_event e :=
  match goal with
  | IH : forall s t, _ -> _ -> _, Hclock : clock_ordered ?t _,
    Hlast : (last_message_sent ?c ?s <= ?t)%Q |- _ =>
      cbn [publication_times deliver escaped published node_after app];
      rewrite <- (deliver_last c e s) by (intros ? E; discriminate E);
      apply (IH (node_after (deliver e s)) t Hclock);
      rewrite deliver_last by (intros ? E; discriminate E);
      exact Hlast
  end.

Section Window.

Variable c : category.
Hypothesis limited : rate_limited c = true.

Lemma publication_times_apart (es : list event) :
  forall (s : node) (t : Q),
    clock_ordered t es ->
    (last_message_sent c s <= t)%Q ->
    Forall (apart c (last_message_sent c s)) (publication_times c es s)
    /\ StronglySorted (apart c) (publication_times c es s).
Proof.
  pose proof (minimum_period_5 c limited) as Hp.
  induction es as [|e es IH]; intros s t Hclock Hlast.
  - split; constructor.
  - destruct e.
    + (* the timer *)
      destruct (clock_ordered_check_sent c i t es limited Hclock) as (Ht1 & Ht2 & Ht3).
      destruct Hclock as (_ & _ & _ & _ & Hclock).
      cbn [publication_times deliver].
      destruct (main_loop_cases i s) as [Hret|(Hraised & Hnone & _)].
      * rewrite Hret, (main_loop_publishes i s Hret).
        set (s1 := refreshed (probed i) s).
        pose proof (main_loop_last i s Hret c) as Hl. fold s1 in Hl. rewrite limited in Hl.
        destruct (due c i s1) eqn:Hd; cbn [andb] in Hl; cbn [Nat.ltb Nat.leb app].
        -- assert (Hgt : (last_message_sent c s + minimum_period c < time_check c i)%Q).
           { rewrite <- (pull_new_message_values_last c (probed i) s).
             apply due_rate_limited; assumption. }
           destruct (IH (node_after (main_loop i s)) (time_jetson_sent i) Hclock)
             as (F & S).
           { rewrite Hl. exact Ht3. }
           rewrite Hl in F.
           assert (F' : Forall (apart c (time_check c i))
                          (publication_times c es (node_after (main_loop i s)))).
           { eapply Forall_impl; [|exact F]. unfold apart. intros a Ha. lra. }
           split.
           ++ constructor; [exact Hgt|].
              eapply Forall_impl; [|exact F']. unfold apart in *. intros a Ha. lra.
           ++ constructor; assumption.
        -- destruct (IH (node_after (main_loop i s)) (time_jetson_sent i) Hclock)
             as (F & S).
           { rewrite Hl. lra. }
           rewrite Hl in F. split; assumption.
      * rewrite Hraised, Hnone. cbn. split; constructor.
    + quiet_event Update_requested.
    + quiet_event (Iris_status voltage_24v).
    + quiet_event (Drive_status_left first_motor_connected second_motor_connected).
    + quiet_event (Drive_status_right first_motor_connected second_motor_connected).
    + quiet_event (Drive_status_rear first_motor_connected second_motor_connected).
    + cbn [publication_times deliver escaped published node_after app].
      destruct (snd (set_gps_info data s)) eqn:E; [split; constructor|].
      rewrite <- (deliver_last c (Gps_sentence data) s) by (intros ? E'; discriminate E').
      apply (IH (node_after (deliver (Gps_sentence data) s)) t Hclock).
      rewrite deliver_last by (intros ? E'; discriminate E'). exact Hlast.
    + quiet_event (Iris_drive controller_present).
Qed.

End Window.

Lemma due_limited c i s :
  rate_limited c = true ->
  due c i s =
  (differs c s || manual_update_requested s)
  && Qgtb (time_check c i - last_message_sent c s) (minimum_period c).
Proof. intro H. destruct c; try discriminate H; reflexivity. Qed.

(** *** The GPS connection flag *)

Lemma gps_info_connected data m : gps_connected (fst (gps_info data m)) = true.
Proof.
  unfold gps_info.
  destruct data as [| |[|q|] [|n|] [|h|]|[|v|] [|t|]|]; reflexivity.
Qed.

Lemma set_gps_info_connected data s :
  gps_connected (GPS_msg (current (fst (set_gps_info data s)))) = true.
Proof. unfold set_gps_info. cbn. apply gps_info_connected. Qed.

Lemma deliver_gps_connected e s :
  gps_connected (GPS_msg (current s)) = true ->
  gps_connected (GPS_msg (current (node_after (deliver e s)))) = true.
Proof.
  intro H. destruct e; cbn [deliver node_after]; try exact H.
  - rewrite main_loop_any_current, pull_new_message_values_GPS. exact H.
  - apply set_gps_info_connected.
Qed.

Lemma main_loop_gps_connected i s :
  gps_connected (GPS_msg (current s)) = true ->
  Forall gps_reports_connected (published (main_loop i s)).
Proof.
  intro H.
  destruct (main_loop_cases i s) as [Hret|(_ & Hnone & _)];
    [|rewrite Hnone; constructor].
  rewrite (main_loop_published i s Hret). apply Forall_forall. intros p Hp.
  apply in_flat_map in Hp. destruct Hp as (c & _ & Hp).
  destruct (due c i _); [|contradiction].
  destruct Hp as [<-|[]].
  destruct c; cbn [gps_reports_connected message_of]; try exact I.
  rewrite pull_new_message_values_GPS. exact H.
Qed.

Lemma deliver_published_gps_connected e s :
  gps_connected (GPS_msg (current s)) = true ->
  Forall gps_reports_connected (published (deliver e s)).
Proof.
  intro H. destruct e; cbn [deliver published]; try constructor.
  apply main_loop_gps_connected. exact H.
Qed.

Lemma spin_gps_connected es :
  forall s,
    gps_connected (GPS_msg (current s)) = true ->
    gps_connected (GPS_msg (current (fst (spin es s)))) = true
    /\ Forall gps_reports_connected (snd (spin es s)).
Proof.
  induction es as [|e es IH]; intros s H.
  - split; [exact H | constructor].
  - cbn [spin].
    pose proof (deliver_gps_connected e s H) as Hn.
    pose proof (deliver_published_gps_connected e s H) as Hp.
    destruct (escaped (deliver e s)); cbn [fst snd].
    + split; assumption.
    + destruct (IH _ Hn) as (I1 & I2).
      split; [exact I1 | apply Forall_app; split; assumption].
Qed.

(** *** The gate of each category *)

(** C1, as amended.  On a tick whose refresh returns and with no refresh
    requested, a category is published at most once, and exactly when its
    message, as the refresh of this tick left it, differs from the values
    published last in one field at least, by [!=] field by field; for the
    battery and the Jetson it must also be more than 5 s since the
    category was last published.  For the categories whose fields are
    booleans and integers, to differ is to be another record.  A
    publication carries the whole message and makes it the values
    published last; without one these values stay.  A tick that follows a
    publication and finds the same message, free of NaN, does not publish
    the category again. *)
Theorem gate_publishes_iff_differs (c : category) (i : tick_input) (s : node) :
  let s1 := refreshed (probed i) s in
  let r := main_loop i s in
  escaped r = None ->
  manual_update_requested s = false ->
  (publishes c (published r) = 1%nat <->
   differs c s1 = true
   /\ (rate_limited c = true ->
       (minimum_period c < time_check c i - last_message_sent c s)%Q))
  /\ (publishes c (published r) = 0%nat \/ publishes c (published r) = 1%nat)
  /\ (exact_fields c = true ->
      (differs c s1 = true <-> message_of c (current s1) <> message_of c (previous s)))
  /\ (message_of c (current s1) = message_of c (previous s) ->
      category_differs c (current s1) (current s1) = false ->
      differs c s1 = false)
  /\ (publishes c (published r) = 1%nat ->
      In (message_of c (current s1)) (published r)
      /\ message_of c (previous (node_after r)) = message_of c (current s1))
  /\ (publishes c (published r) = 0%nat ->
      message_of c (previous (node_after r)) = message_of c (previous s))
  /\ (forall i2,
      message_of c (current (refreshed (probed i2) (node_after r))) =
      message_of c (current s1) ->
      category_differs c (current s1) (current s1) = false ->
      publishes c (published r) = 1%nat ->
      publishes c (published (main_loop i2 (node_after r))) = 0%nat).
Proof.
  intros s1 r Hret Hm.
  assert (Hm1 : manual_update_requested s1 = false)
    by (unfold s1; rewrite pull_new_message_values_manual; exact Hm).
  assert (Hl : last_message_sent c s1 = last_message_sent c s)
    by apply pull_new_message_values_last.
  assert (Hp : previous s1 = previous s) by apply pull_new_message_values_previous.
  split; [|split; [|split; [|split; [|split; [|split]]]]].
  - unfold r. rewrite (publishes_1_due c i s Hret). fold s1.
    rewrite (due_without_manual c i s1 Hm1), andb_true_iff, Hl.
    destruct (rate_limited c).
    + rewrite Qgtb_true. tauto.
    + intuition discriminate.
  - apply publishes_0_or_1.
  - intro Hx. unfold differs. rewrite <- Hp.
    rewrite <- (category_differs_exact c (current s1) (previous s1) Hx).
    destruct (category_differs c (current s1) (previous s1)); split; intro H;
      try reflexivity; try discriminate H; congruence.
  - rewrite <- Hp.
    intros He Hn. unfold differs.
    rewrite (category_differs_ext c (current s1) (current s1) (current s1) (previous s1)
               eq_refl (eq_sym He)).
    exact Hn.
  - unfold r. rewrite (publishes_1_due c i s Hret). fold s1. intro Hd. split.
    + apply main_loop_In; assumption.
    + rewrite (main_loop_previous i s Hret). fold s1. rewrite Hd. reflexivity.
  - unfold r. rewrite (publishes_0_due c i s Hret). fold s1. intro Hd.
    rewrite (main_loop_previous i s Hret). fold s1. rewrite Hd. reflexivity.
  - intros i2 Hsame Hnan Hpub.
    exact (no_second_publish c i i2 s Hret Hpub Hsame Hnan).
Qed.

Lemma gate_publishes_iff_differs_witness :
  escaped (main_loop (tick_at seeing_probe 1) started) = None
  /\ manual_update_requested started = false
  /\ publishes Camera (published (main_loop (tick_at seeing_probe 1) started)) = 1%nat.
Proof.
  assert (Hret : escaped (main_loop (tick_at seeing_probe 1) started) = None)
    by (vm_compute; reflexivity).
  assert (H : manual_update_requested started = false) by (vm_compute; reflexivity).
  split; [exact Hret|]. split; [exact H|].
  pose proof (gate_publishes_iff_differs Camera (tick_at seeing_probe 1) started Hret H)
    as T.
  cbv zeta in T. destruct T as (T1 & _).
  apply (proj2 T1).
  split; [vm_compute; reflexivity | intro E; discriminate E].
Defined.

(** A battery voltage that changed 1 s after the last publication: the
    tick returns, the message differs, no refresh is requested, and
    nothing is published. *)
Lemma gate_counterexample :
  escaped (main_loop (tick_at quiet_probe 1) charged) = None
  /\ manual_update_requested charged = false
  /\ differs Battery (refreshed quiet_probe charged) = true
  /\ publishes Battery (published (main_loop (tick_at quiet_probe 1) charged)) = 0%nat.
Proof. vm_compute. repeat split. Qed.

(** A dilution that is not a number differs from itself: the GPS message
    is published again by a tick that finds it unchanged. *)
Example nan_record_published_again :
  publishes GPS (published (main_loop (tick_at quiet_probe 1) diluted)) = 1%nat
  /\ current (node_after (main_loop (tick_at quiet_probe 1) diluted)) = current diluted
  /\ publishes GPS
       (published (main_loop (tick_at quiet_probe 2)
                     (node_after (main_loop (tick_at quiet_probe 1) diluted)))) = 1%nat.
Proof. vm_compute. repeat split. Qed.

(** *** The maximum rate of the battery and the Jetson *)

(** C2, on the code.  For the battery and the Jetson the period is 5 s.
    While no more than 5 s have passed since the category was last
    published (so, below 5 s), a message that differs is not published,
    and the values published last and the time of the last publication
    stay as they are: nothing is kept of the value held back, and the next
    tick compares the message it then finds with the same values published
    last.  Over any run of events in which the clock does not go
    backwards, any two publications of the category are more than 5 s
    apart.  Once more than 5 s have passed, a message that differs (or a
    refresh requested) is published and the time is kept, on a tick whose
    refresh returns.  But a tick whose refresh raises, as it does whenever
    the call of [sensors] succeeds, publishes nothing however long it has
    been and whatever has changed, and leaves the values published last
    and the time as they were. *)
Theorem rate_ceiling (c : category) (i : tick_input) (s : node) :
  let s1 := refreshed (probed i) s in
  let r := main_loop i s in
  let elapsed := (time_check c i - last_message_sent c s)%Q in
  rate_limited c = true ->
  (minimum_period c == 5)%Q
  /\ ((elapsed <= minimum_period c)%Q ->
      publishes c (published r) = 0%nat
      /\ message_of c (previous (node_after r)) = message_of c (previous s)
      /\ last_message_sent c (node_after r) = last_message_sent c s
      /\ (forall i2,
          escaped (main_loop i2 (node_after r)) = None ->
          category_differs c
            (current (refreshed (probed i2) (node_after r))) (previous s) = true ->
          (minimum_period c < time_check c i2 - last_message_sent c s)%Q ->
          publishes c (published (main_loop i2 (node_after r))) = 1%nat
          /\ In (message_of c (current (refreshed (probed i2) (node_after r))))
                (published (main_loop i2 (node_after r)))))
  /\ (escaped r = None ->
      (minimum_period c < elapsed)%Q ->
      differs c s1 = true \/ manual_update_requested s = true ->
      publishes c (published r) = 1%nat
      /\ In (message_of c (current s1)) (published r)
      /\ message_of c (previous (node_after r)) = message_of c (current s1)
      /\ last_message_sent c (node_after r) = time_sent c i)
  /\ (escaped r <> None ->
      escaped r = Some TypeError
      /\ published r = []
      /\ previous (node_after r) = previous s
      /\ last_message_sent c (node_after r) = last_message_sent c s
      /\ manual_update_requested (node_after r) = manual_update_requested s)
  /\ (forall t es,
      clock_ordered t es -> (last_message_sent c s <= t)%Q ->
      Forall (apart c (last_message_sent c s)) (publication_times c es s)
      /\ StronglySorted (apart c) (publication_times c es s)).
Proof.
  intros s1 r elapsed Hr.
  assert (Hl : last_message_sent c s1 = last_message_sent c s)
    by apply pull_new_message_values_last.
  assert (Hm : manual_update_requested s1 = manual_update_requested s)
    by apply pull_new_message_values_manual.
  assert (Hdue : due c i s1 =
                 (differs c s1 || manual_update_requested s) && Qgtb elapsed (minimum_period c)).
  { rewrite (due_limited c i s1 Hr), Hl, Hm. reflexivity. }
  assert (Hraised : escaped r <> None ->
            escaped r = Some TypeError
            /\ published r = []
            /\ previous (node_after r) = previous s
            /\ last_message_sent c (node_after r) = last_message_sent c s
            /\ manual_update_requested (node_after r) = manual_update_requested s).
  { intro H. unfold r. rewrite (main_loop_raises i s H).
    cbn [escaped published node_after].
    rewrite pull_new_message_values_previous, pull_new_message_values_last,
      pull_new_message_values_manual.
    repeat split. }
  split; [apply minimum_period_5; exact Hr|].
  split; [|split; [|split]].
  - intro He. apply Qgtb_false in He. rewrite He, andb_false_r in Hdue.
    assert (H3 : publishes c (published r) = 0%nat
                 /\ message_of c (previous (node_after r)) = message_of c (previous s)
                 /\ last_message_sent c (node_after r) = last_message_sent c s).
    { destruct (escaped r) eqn:E.
      - destruct Hraised as (_ & H1 & H2 & H3 & _); [discriminate|].
        rewrite H1, H2, H3. repeat split.
      - split; [apply (publishes_0_due c i s E); exact Hdue|]. split.
        + unfold r. rewrite (main_loop_previous i s E). fold s1. rewrite Hdue.
          reflexivity.
        + unfold r. rewrite (main_loop_last i s E). fold s1. rewrite Hdue.
          reflexivity. }
    destruct H3 as (H0 & Hprev & Hlast).
    split; [exact H0|]. split; [exact Hprev|]. split; [exact Hlast|].
    intros i2 Hret2 Hd Ht.
    set (s2 := refreshed (probed i2) (node_after r)) in *.
    assert (Hdue2 : due c i2 s2 = true).
    { rewrite (due_limited c i2 s2 Hr).
      unfold s2 at 3. rewrite pull_new_message_values_last, Hlast.
      rewrite (proj2 (Qgtb_true _ _) Ht), andb_true_r.
      unfold differs.
      assert (Hp2 : message_of c (previous s2) = message_of c (previous s)).
      { unfold s2. rewrite pull_new_message_values_previous. exact Hprev. }
      rewrite (category_differs_ext c (current s2) (current s2) (previous s) (previous s2)
                 eq_refl Hp2).
      rewrite Hd. reflexivity. }
    split; [apply (publishes_1_due c i2 _ Hret2); exact Hdue2
           | apply main_loop_In; assumption].
  - intros Hret He Hc. apply Qgtb_true in He. rewrite He, andb_true_r in Hdue.
    assert (Hd : due c i s1 = true).
    { rewrite Hdue. destruct Hc as [-> | ->]; [reflexivity | apply orb_true_r]. }
    split; [apply (publishes_1_due c i s Hret); exact Hd|].
    split; [apply main_loop_In; assumption|].
    split.
    + unfold r. rewrite (main_loop_previous i s Hret). fold s1. rewrite Hd. reflexivity.
    + unfold r. rewrite (main_loop_last i s Hret). fold s1. rewrite Hd, Hr. reflexivity.
  - exact Hraised.
  - intros t es. apply publication_times_apart. exact Hr.
Qed.

(** A battery voltage of 24 V comes in after 0 V was published at the
    start.  The tick at 1 s holds it back.  The tick at 6 s publishes it
    where [sensors] fails; where [sensors] answers, the same tick raises
    and publishes nothing. *)
Lemma rate_ceiling_witness :
  rate_limited Battery = true
  /\ publishes Battery (published (main_loop (tick_at quiet_probe 1) charged)) = 0%nat
  /\ publishes Battery
       (published (main_loop (tick_at quiet_probe 6)
                     (node_after (main_loop (tick_at quiet_probe 1) charged)))) = 1%nat
  /\ escaped (main_loop (tick_at sensing_probe 6)
                (node_after (main_loop (tick_at quiet_probe 1) charged)))
     = Some TypeError
  /\ published (main_loop (tick_at sensing_probe 6)
                  (node_after (main_loop (tick_at quiet_probe 1) charged))) = []
  /\ StronglySorted (apart Battery) (publication_times Battery battery_run started).
Proof.
  assert (H : rate_limited Battery = true) by reflexivity.
  pose proof (rate_ceiling Battery (tick_at quiet_probe 1) charged H) as T.
  cbv zeta in T. destruct T as (_ & T1 & _ & _ & _).
  assert (He : (time_check Battery (tick_at quiet_probe 1)
                - last_message_sent Battery charged
                <= minimum_period Battery)%Q) by (vm_compute; discriminate).
  destruct (T1 He) as (P0 & _ & _ & P1).
  split; [exact H|]. split; [exact P0|]. split; [|split; [|split]].
  - assert (Hret : escaped (main_loop (tick_at quiet_probe 6)
                              (node_after (main_loop (tick_at quiet_probe 1) charged)))
                   = None) by (vm_compute; reflexivity).
    assert (Hd : category_differs Battery
                   (current (refreshed (probed (tick_at quiet_probe 6))
                               (node_after (main_loop (tick_at quiet_probe 1) charged))))
                   (previous charged) = true) by (vm_compute; reflexivity).
    assert (Ht : (minimum_period Battery
                  < time_check Battery (tick_at quiet_probe 6)
                    - last_message_sent Battery charged)%Q) by (vm_compute; reflexivity).
    exact (proj1 (P1 (tick_at quiet_probe 6) Hret Hd Ht)).
  - pose proof (rate_ceiling Battery (tick_at sensing_probe 6)
                  (node_after (main_loop (tick_at quiet_probe 1) charged)) H) as V.
    cbv zeta in V. destruct V as (_ & _ & _ & V & _).
    apply V. vm_compute. discriminate.
  - pose proof (rate_ceiling Battery (tick_at sensing_probe 6)
                  (node_after (main_loop (tick_at quiet_probe 1) charged)) H) as V.
    cbv zeta in V. destruct V as (_ & _ & _ & V & _).
    apply V. vm_compute. discriminate.
  - pose proof (rate_ceiling Battery (tick_at quiet_probe 1) started H) as U.
    cbv zeta in U. destruct U as (_ & _ & _ & _ & U3).
    apply (U3 0%Q battery_run).
    + vm_compute. intuition discriminate.
    + vm_compute. discriminate.
Defined.

(** The run of three voltages and four ticks publishes the battery at 6 s
    and at 12 s. *)
Example battery_run_times :
  publication_times Battery battery_run started = [6%Q; 12%Q].
Proof. vm_compute. reflexivity. Qed.

(** *** The refresh on request *)

(** C3, as amended.  On the tick after a refresh was requested, if its
    refresh returns, the camera, wheel, FrSky and misc messages are each
    published once, whatever their values; the battery and the Jetson
    messages are published once if more than 5 s have passed since their
    last publication, and not at all otherwise; the request is cleared by
    the end of the tick; and a tick that follows and finds the message of a
    published category unchanged, free of NaN, does not publish it
    again. *)
Theorem manual_update_tick (c : category) (i : tick_input) (s : node) :
  let s1 := refreshed (probed i) s in
  let r := main_loop i s in
  escaped r = None ->
  manual_update_requested s = true ->
  (rate_limited c = false -> c <> GPS ->
   publishes c (published r) = 1%nat /\ In (message_of c (current s1)) (published r))
  /\ (rate_limited c = true ->
      (publishes c (published r) = 1%nat <->
       (minimum_period c < time_check c i - last_message_sent c s)%Q)
      /\ (publishes c (published r) = 0%nat <->
          (time_check c i - last_message_sent c s <= minimum_period c)%Q))
  /\ (publishes c (published r) = 0%nat \/ publishes c (published r) = 1%nat)
  /\ manual_update_requested (node_after r) = false
  /\ (forall i2,
      message_of c (current (refreshed (probed i2) (node_after r))) =
      message_of c (current s1) ->
      category_differs c (current s1) (current s1) = false ->
      publishes c (published r) = 1%nat ->
      publishes c (published (main_loop i2 (node_after r))) = 0%nat).
Proof.
  intros s1 r Hret Hm.
  assert (Hm1 : manual_update_requested s1 = true)
    by (unfold s1; rewrite pull_new_message_values_manual; exact Hm).
  assert (Hl : last_message_sent c s1 = last_message_sent c s)
    by apply pull_new_message_values_last.
  split; [|split; [|split; [|split]]].
  - intros Hr Hc.
    assert (Hd : due c i s1 = true)
      by (rewrite (due_with_manual c i s1 Hm1 Hc), Hr; reflexivity).
    split; [apply (publishes_1_due c i s Hret); exact Hd
           | apply main_loop_In; assumption].
  - intro Hr.
    assert (Hc : c <> GPS) by (intro E; subst c; discriminate Hr).
    unfold r. rewrite (publishes_1_due c i s Hret), (publishes_0_due c i s Hret).
    fold s1.
    rewrite (due_with_manual c i s1 Hm1 Hc), Hr, Hl.
    split; [apply Qgtb_true | apply Qgtb_false].
  - apply publishes_0_or_1.
  - apply main_loop_manual. exact Hret.
  - intros i2 Hsame Hnan Hpub.
    exact (no_second_publish c i i2 s Hret Hpub Hsame Hnan).
Qed.

Lemma manual_update_tick_witness :
  escaped (main_loop (tick_at quiet_probe 1) requested) = None
  /\ manual_update_requested requested = true
  /\ publishes Camera (published (main_loop (tick_at quiet_probe 1) requested)) = 1%nat
  /\ manual_update_requested (node_after (main_loop (tick_at quiet_probe 1) requested))
     = false.
Proof.
  assert (Hret : escaped (main_loop (tick_at quiet_probe 1) requested) = None)
    by (vm_compute; reflexivity).
  assert (H : manual_update_requested requested = true) by (vm_compute; reflexivity).
  pose proof (manual_update_tick Camera (tick_at quiet_probe 1) requested Hret H) as T.
  cbv zeta in T. destruct T as (H1 & _ & _ & H4 & _).
  split; [exact Hret|]. split; [exact H|]. split; [|exact H4].
  apply H1; [reflexivity | intro E; discriminate E].
Defined.

(** A refresh requested 1 s after the start: the tick returns, the GPS,
    the battery and the Jetson are not published, and the request is
    gone. *)
Lemma manual_update_counterexample :
  escaped (main_loop (tick_at quiet_probe 1) requested) = None
  /\ manual_update_requested requested = true
  /\ publishes GPS (published (main_loop (tick_at quiet_probe 1) requested)) = 0%nat
  /\ publishes Battery (published (main_loop (tick_at quiet_probe 1) requested)) = 0%nat
  /\ publishes Jetson (published (main_loop (tick_at quiet_probe 1) requested)) = 0%nat
  /\ manual_update_requested (node_after (main_loop (tick_at quiet_probe 1) requested))
     = false.
Proof. vm_compute. repeat split. Qed.

(** *** The refresh of the messages *)

(** C9, on the code.  Refreshing twice leaves the messages, the values
    published last and the request as refreshing once does, and no refresh
    publishes.  But a refresh that returns (the call of [sensors] failing)
    registers one more subscription on the drive command topic each time:
    the node after two refreshes is not the node after one, and every tick
    that returns adds a subscription.  A refresh that raises does so
    before it comes to the subscription. *)
Theorem refresh_subscribes_again (p : probe) (s : node) :
  let once := refreshed p s in
  let twice := refreshed p once in
  current twice = current once
  /\ previous twice = previous once
  /\ manual_update_requested twice = manual_update_requested once
  /\ (snd (pull_new_message_values p s) = None ->
      snd (pull_new_message_values p once) = None
      /\ subscriptions twice =
         subscriptions once
         ++ [ {| topic := "/rover_control/command_control/iris_drive";
                 called_back := frsky_callback |} ]
      /\ length (subscriptions twice) = S (length (subscriptions once))
      /\ length (subscriptions once) = S (length (subscriptions s))
      /\ twice <> once)
  /\ (snd (pull_new_message_values p s) <> None ->
      subscriptions once = subscriptions s)
  /\ (forall i, escaped (main_loop i s) = None ->
      length (subscriptions (node_after (main_loop i s))) = S (length (subscriptions s))).
Proof.
  intros once twice.
  split; [apply pull_new_message_values_twice|].
  split; [apply pull_new_message_values_previous|].
  split; [apply pull_new_message_values_manual|].
  split; [|split].
  - rewrite !pull_new_message_values_escaped. unfold twice, once.
    rewrite !pull_new_message_values_subscriptions.
    destruct (sensors_output p) eqn:Es; [intro H; discriminate H|]. intros _.
    split; [reflexivity|]. split; [reflexivity|].
    assert (Hlen : length ((subscriptions s
                     ++ [ {| topic := "/rover_control/command_control/iris_drive";
                             called_back := frsky_callback |} ])
                     ++ [ {| topic := "/rover_control/command_control/iris_drive";
                             called_back := frsky_callback |} ])
                   = S (length (subscriptions s
                     ++ [ {| topic := "/rover_control/command_control/iris_drive";
                             called_back := frsky_callback |} ])))
      by (rewrite !length_app; cbn [length]; lia).
    split; [exact Hlen|].
    split; [rewrite length_app; cbn [length]; lia|].
    intro E.
    assert (E' : length (subscriptions (refreshed p (refreshed p s)))
                 = length (subscriptions (refreshed p s))) by (rewrite E; reflexivity).
    rewrite !pull_new_message_values_subscriptions, Es, !length_app in E'.
    cbn [length] in E'. lia.
  - rewrite pull_new_message_values_escaped. unfold once.
    rewrite pull_new_message_values_subscriptions.
    destruct (sensors_output p); [reflexivity | intro H; contradiction H; reflexivity].
  - intros i Hret.
    rewrite (main_loop_subscriptions i s Hret), pull_new_message_values_subscriptions.
    apply main_loop_returns_iff in Hret. rewrite Hret, length_app. cbn [length]. lia.
Qed.

(** The node starts with seven subscriptions; one refresh makes eight, two
    make nine. *)
Example refresh_subscribes_again_at_start :
  snd (init quiet_probe 0 0) = None
  /\ length (subscriptions started) = 7%nat
  /\ length (subscriptions (refreshed quiet_probe started)) = 8%nat
  /\ length (subscriptions (refreshed quiet_probe (refreshed quiet_probe started)))
     = 9%nat.
Proof. vm_compute. repeat split. Qed.

(** *** The GPS connection flag *)

(** C10.  A GPS sentence, parsed or not, sets [gps_connected]; no event
    clears it; so from then on, whatever events follow, the flag stays set
    and every GPS message published says connected. *)
Theorem gps_connected_monotone (data : nmea) (s : node) (es : list event) :
  let s1 := node_after (deliver (Gps_sentence data) s) in
  gps_connected (GPS_msg (current s1)) = true
  /\ gps_connected (GPS_msg (current (fst (spin es s1)))) = true
  /\ Forall gps_reports_connected (snd (spin es s1))
  /\ (forall e s',
      gps_connected (GPS_msg (current s')) = true ->
      gps_connected (GPS_msg (current (node_after (deliver e s')))) = true).
Proof.
  intros s1.
  assert (H : gps_connected (GPS_msg (current s1)) = true)
    by apply set_gps_info_connected.
  destruct (spin_gps_connected es s1 H) as (H1 & H2).
  repeat split; try assumption.
  intros e s'. apply deliver_gps_connected.
Qed.

(** *** Further properties of the status node *)

Lemma pull_after_request (p : probe) (s : node) :
  current (refreshed p (on_update_requested_ s)) = current (refreshed p s).
Proof.
  unfold refreshed, pull_new_message_values, set_jetson_usage_information.
  destruct s. destruct (sensors_output p); vm_compute; reflexivity.
Qed.

Lemma main_loop_after_request (i : tick_input) (s : node) :
  escaped (main_loop i (on_update_requested_ s)) = escaped (main_loop i s).
Proof. rewrite !main_loop_escaped. reflexivity. Qed.

(** X8.  The GPS block never looks at the manual request: on a tick whose
    refresh returns, the GPS record is published exactly when it differs
    from the snapshot, and a request made before the tick changes nothing
    of that. *)
Theorem gps_ignores_manual_update (i : tick_input) (s : node) :
  let s1 := refreshed (probed i) s in
  escaped (main_loop i s) = None ->
  (publishes GPS (published (main_loop i s)) = 1%nat <-> differs GPS s1 = true)
  /\ (publishes GPS (published (main_loop i s)) = 0%nat <-> differs GPS s1 = false)
  /\ escaped (main_loop i (on_update_requested_ s)) = None
  /\ publishes GPS (published (main_loop i (on_update_requested_ s)))
     = publishes GPS (published (main_loop i s)).
Proof.
  intros s1 Hret.
  assert (Hret' : escaped (main_loop i (on_update_requested_ s)) = None)
    by (rewrite main_loop_after_request; exact Hret).
  split; [|split; [|split]].
  - rewrite (publishes_1_due GPS i s Hret). reflexivity.
  - rewrite (publishes_0_due GPS i s Hret). reflexivity.
  - exact Hret'.
  - rewrite (main_loop_publishes i (on_update_requested_ s) Hret' GPS),
      (main_loop_publishes i s Hret GPS).
    unfold due, differs.
    rewrite !pull_new_message_values_previous, pull_after_request. reflexivity.
Qed.

Lemma gps_ignores_manual_update_witness :
  escaped (main_loop (tick_at quiet_probe 1) diluted) = None
  /\ publishes GPS (published (main_loop (tick_at quiet_probe 1)
                                 (on_update_requested_ diluted)))
     = publishes GPS (published (main_loop (tick_at quiet_probe 1) diluted)).
Proof.
  assert (H : escaped (main_loop (tick_at quiet_probe 1) diluted) = None)
    by (vm_compute; reflexivity).
  split; [exact H|].
  pose proof (gps_ignores_manual_update (tick_at quiet_probe 1) diluted) as T.
  cbv zeta in T. destruct (T H) as (_ & _ & _ & T4). exact T4.
Defined.

(** *** The start *)

Lemma init_escaped (p : probe) (a b : Q) :
  snd (init p a b) =
  match sensors_output p with
  | Some _ => Some TypeError
  | None => None
  end.
Proof.
  unfold init. cbv zeta. rewrite pull_new_message_values_escaped.
  destruct (sensors_output p); reflexivity.
Qed.

Lemma init_returns (p : probe) (a b : Q) :
  snd (init p a b) = None -> sensors_output p = None.
Proof.
  rewrite init_escaped. destruct (sensors_output p); [discriminate | reflexivity].
Qed.

Lemma init_previous (p : probe) (a b : Q) :
  snd (init p a b) = None ->
  previous (fst (init p a b)) = current (fst (init p a b)).
Proof.
  intro H. apply init_returns in H.
  unfold init, pull_new_message_values, set_jetson_usage_information.
  rewrite H. vm_compute. reflexivity.
Qed.

Lemma init_refreshed (p : probe) (a b : Q) :
  snd (init p a b) = None ->
  current (refreshed p (fst (init p a b))) = current (fst (init p a b)).
Proof.
  intro H. apply init_returns in H.
  unfold refreshed, init, pull_new_message_values, set_jetson_usage_information.
  rewrite H. vm_compute. reflexivity.
Qed.

Lemma init_manual (p : probe) (a b : Q) :
  manual_update_requested (fst (init p a b)) = false.
Proof.
  unfold init, pull_new_message_values, set_jetson_usage_information.
  destruct (sensors_output p); vm_compute; reflexivity.
Qed.

Lemma statuses_ext (a b : statuses) :
  (forall c, message_of c a = message_of c b) -> a = b.
Proof.
  intro H. destruct a, b.
  pose proof (H Battery) as H1. pose proof (H Camera) as H2.
  pose proof (H Wheel) as H3. pose proof (H FrSky) as H4.
  pose proof (H GPS) as H5. pose proof (H Jetson) as H6. pose proof (H Misc) as H7.
  cbn in *. congruence.
Qed.

Lemma init_jetson_readable (p : probe) (a b : Q) :
  snd (init p a b) = None ->
  probe_readable p = true ->
  jetson_differs (jetson_msg (current (fst (init p a b))))
                 (jetson_msg (current (fst (init p a b))))
  = false.
Proof.
  intro H. apply init_returns in H.
  unfold probe_readable, no_nan. rewrite !andb_true_iff.
  intros (((H1 & H2) & H3) & H4).
  assert (E : jetson_msg (current (fst (init p a b))) =
              {| jetson_cpu := cpu_percent p;
                 jetson_ram := virtual_memory_percent p;
                 jetson_emmc := used_percent_fs p (nth 0 file_systems_EMMC_NVMe_SSD ""%string);
                 jetson_nvme_ssd :=
                   used_percent_fs p (nth 1 file_systems_EMMC_NVMe_SSD ""%string);
                 jetson_gpu_temp := (-1)%float |}).
  { unfold init, pull_new_message_values, set_jetson_usage_information.
    rewrite H. vm_compute. reflexivity. }
  rewrite E. unfold jetson_differs, float_ne.
  cbn [jetson_cpu jetson_ram jetson_emmc jetson_nvme_ssd jetson_gpu_temp].
  rewrite H1, H2, H3, H4. reflexivity.
Qed.

(** X9.  Right after the start the node is silent: [__init__], when it
    returns, ends by taking the snapshot of the records it has just
    refreshed, so a first tick that probes the same readings (none of them
    NaN) returns too, publishes nothing and leaves the snapshot as it
    is. *)
Theorem startup_publishes_nothing (p : probe) (time_jetson time_iris : Q)
    (i : tick_input) :
  snd (init p time_jetson time_iris) = None ->
  probed i = p ->
  probe_readable p = true ->
  escaped (main_loop i (fst (init p time_jetson time_iris))) = None
  /\ published (main_loop i (fst (init p time_jetson time_iris))) = []
  /\ previous (node_after (main_loop i (fst (init p time_jetson time_iris))))
     = previous (fst (init p time_jetson time_iris)).
Proof.
  intros Hinit Hp Hr.
  set (s := fst (init p time_jetson time_iris)).
  assert (Hret : escaped (main_loop i s) = None).
  { apply main_loop_returns_iff. rewrite Hp. apply (init_returns _ _ _ Hinit). }
  assert (Hdue : forall c, due c i (refreshed (probed i) s) = false).
  { intro c.
    assert (Hm : manual_update_requested (refreshed (probed i) s) = false)
      by (rewrite pull_new_message_values_manual; apply init_manual).
    rewrite (due_without_manual c i _ Hm).
    unfold differs. rewrite pull_new_message_values_previous, Hp.
    unfold s. rewrite (init_refreshed _ _ _ Hinit), (init_previous _ _ _ Hinit).
    assert (Hd : category_differs c (current (fst (init p time_jetson time_iris)))
                   (current (fst (init p time_jetson time_iris))) = false).
    { destruct c; try (apply category_differs_exact_refl; reflexivity).
      - unfold init, pull_new_message_values, set_jetson_usage_information.
        destruct (sensors_output p); vm_compute; reflexivity.
      - apply init_jetson_readable; assumption. }
    rewrite Hd. reflexivity. }
  split; [exact Hret|]. split.
  - rewrite (main_loop_published i s Hret). unfold blocks. cbn [flat_map].
    rewrite !Hdue. reflexivity.
  - apply statuses_ext. intro c.
    rewrite (main_loop_previous i s Hret), Hdue. reflexivity.
Qed.

Lemma startup_publishes_nothing_witness :
  snd (init quiet_probe 0 0) = None
  /\ probed (tick_at quiet_probe 1) = quiet_probe
  /\ probe_readable quiet_probe = true
  /\ published (main_loop (tick_at quiet_probe 1) (fst (init quiet_probe 0 0))) = [].
Proof.
  assert (H0 : snd (init quiet_probe 0 0) = None) by (vm_compute; reflexivity).
  assert (H1 : probed (tick_at quiet_probe 1) = quiet_probe) by reflexivity.
  assert (H2 : probe_readable quiet_probe = true) by (vm_compute; reflexivity).
  split; [exact H0|]. split; [exact H1|]. split; [exact H2|].
  exact (proj1 (proj2 (startup_publishes_nothing quiet_probe 0 0 (tick_at quiet_probe 1)
                         H0 H1 H2))).
Defined.

(** Where [sensors] answers, the constructor raises and there is no node. *)
Example init_raises : snd (init sensing_probe 0 0) = Some TypeError.
Proof. vm_compute. reflexivity. Qed.

(** X10.  After a tick whose refresh returns, for the categories that are
    not rate limited and hold booleans only (camera, wheel, controller
    link, misc), the snapshot equals the current record: a change is not
    left waiting by such a tick. *)
Theorem snapshot_follows_record (c : category) (i : tick_input) (s : node) :
  escaped (main_loop i s) = None ->
  exact_fields c = true -> rate_limited c = false ->
  message_of c (previous (node_after (main_loop i s)))
  = message_of c (current (node_after (main_loop i s)))
  /\ differs c (node_after (main_loop i s)) = false.
Proof.
  intros Hret Hx Hr.
  set (s1 := refreshed (probed i) s).
  assert (H : message_of c (previous (node_after (main_loop i s)))
              = message_of c (current (node_after (main_loop i s)))).
  { rewrite (main_loop_previous i s Hret), (main_loop_current i s Hret). fold s1.
    destruct (due c i s1) eqn:Hd; [reflexivity|].
    assert (Hdf : differs c s1 = false).
    { destruct c; try discriminate Hx; try discriminate Hr; unfold due in Hd;
        apply orb_false_iff in Hd; exact (proj1 Hd). }
    unfold differs in Hdf.
    apply (category_differs_exact c _ _ Hx) in Hdf.
    unfold s1 in Hdf at 2. rewrite pull_new_message_values_previous in Hdf.
    symmetry. exact Hdf. }
  split; [exact H|].
  unfold differs. apply (category_differs_exact c _ _ Hx). symmetry. exact H.
Qed.

Lemma snapshot_follows_record_witness :
  escaped (main_loop (tick_at seeing_probe 1) started) = None
  /\ exact_fields Camera = true /\ rate_limited Camera = false
  /\ differs Camera (node_after (main_loop (tick_at seeing_probe 1) started)) = false.
Proof.
  assert (H0 : escaped (main_loop (tick_at seeing_probe 1) started) = None)
    by (vm_compute; reflexivity).
  assert (H1 : exact_fields Camera = true) by reflexivity.
  assert (H2 : rate_limited Camera = false) by reflexivity.
  split; [exact H0|]. split; [exact H1|]. split; [exact H2|].
  exact (proj2 (snapshot_follows_record Camera (tick_at seeing_probe 1) started H0 H1 H2)).
Defined.

(** *** What a tick and a callback leave alone *)

Lemma pull_new_message_values_kept (p : probe) (s : node) :
  battery_message (current (refreshed p s)) = battery_message (current s)
  /\ wheel_msg (current (refreshed p s)) = wheel_msg (current s)
  /\ FrSky_msg (current (refreshed p s)) = FrSky_msg (current s)
  /\ GPS_msg (current (refreshed p s)) = GPS_msg (current s)
  /\ misc_msg (current (refreshed p s)) = no_misc.
Proof.
  unfold refreshed, pull_new_message_values, set_jetson_usage_information.
  destruct s as [m c pr tj ti subs]. destruct c.
  destruct (sensors_output p); vm_compute; repeat split.
Qed.

Lemma pull_new_message_values_misc (p : probe) (s : node) :
  misc_msg (current (refreshed p s)) = no_misc.
Proof. exact (proj2 (proj2 (proj2 (proj2 (pull_new_message_values_kept p s))))). Qed.

(** X11.  A tick rewrites only what it probes: the battery, wheel,
    controller-link and GPS records are after the tick what the callbacks
    left, and the misc record has every flag false. *)
Theorem tick_keeps_subscribed_records (i : tick_input) (s : node) :
  let s' := node_after (main_loop i s) in
  battery_message (current s') = battery_message (current s)
  /\ wheel_msg (current s') = wheel_msg (current s)
  /\ FrSky_msg (current s') = FrSky_msg (current s)
  /\ GPS_msg (current s') = GPS_msg (current s)
  /\ misc_msg (current s') = no_misc.
Proof.
  intros s'. unfold s'. rewrite main_loop_any_current.
  apply pull_new_message_values_kept.
Qed.

Lemma main_loop_says_no_misc (i : tick_input) (s : node) :
  Forall says_no_misc (published (main_loop i s)).
Proof.
  destruct (main_loop_cases i s) as [Hret|(_ & Hnone & _)];
    [|rewrite Hnone; constructor].
  rewrite (main_loop_published i s Hret). apply Forall_forall. intros x Hx.
  apply in_flat_map in Hx. destruct Hx as (c & _ & Hx).
  destruct (due c i _); [|contradiction].
  destruct Hx as [<-|[]].
  destruct c; cbn [says_no_misc message_of]; try exact I.
  apply pull_new_message_values_misc.
Qed.

Lemma deliver_says_no_misc (e : event) (s : node) :
  Forall says_no_misc (published (deliver e s)).
Proof.
  destruct e; cbn [deliver published]; try constructor.
  apply main_loop_says_no_misc.
Qed.

Lemma spin_says_no_misc (es : list event) :
  forall s, Forall says_no_misc (snd (spin es s)).
Proof.
  induction es as [|e es IH]; intro s; [constructor|].
  cbn [spin]. pose proof (deliver_says_no_misc e s) as H.
  destruct (escaped (deliver e s)); cbn [snd]; [exact H|].
  apply Forall_app. split; [exact H | apply IH].
Qed.

Lemma pub_Misc_inj (a b : MiscStatuses) : pub_Misc a = pub_Misc b -> a = b.
Proof. intro H. injection H as H. exact H. Qed.

Lemma main_loop_previous_misc (i : tick_input) (s : node) :
  misc_msg (previous s) = no_misc ->
  misc_msg (previous (node_after (main_loop i s))) = no_misc.
Proof.
  intro H.
  destruct (main_loop_cases i s) as [Hret|(_ & _ & Hn)].
  - pose proof (main_loop_previous i s Hret Misc) as Hp. cbn [message_of] in Hp.
    destruct (due Misc i _).
    + apply pub_Misc_inj in Hp. rewrite Hp. apply pull_new_message_values_misc.
    + apply pub_Misc_inj in Hp. rewrite Hp. exact H.
  - rewrite Hn, pull_new_message_values_previous. exact H.
Qed.

Lemma deliver_previous_misc (e : event) (s : node) :
  misc_msg (previous s) = no_misc ->
  misc_msg (previous (node_after (deliver e s))) = no_misc.
Proof.
  intro H. destruct e; cbn [deliver node_after]; try exact H.
  apply main_loop_previous_misc. exact H.
Qed.

Lemma spin_previous_misc (es : list event) :
  forall s, misc_msg (previous s) = no_misc ->
            misc_msg (previous (fst (spin es s))) = no_misc.
Proof.
  induction es as [|e es IH]; intros s H; [exact H|].
  cbn [spin]. pose proof (deliver_previous_misc e s H) as H1.
  destruct (escaped (deliver e s)); cbn [fst]; [exact H1 | apply IH; exact H1].
Qed.

Lemma init_previous_misc (p : probe) (a b : Q) :
  misc_msg (previous (fst (init p a b))) = no_misc.
Proof.
  unfold init, pull_new_message_values, set_jetson_usage_information.
  destruct (sensors_output p); vm_compute; reflexivity.
Qed.

(** X12.  From a start that returned, after any run of events, a tick
    whose refresh returns publishes the misc record exactly when it finds
    a manual request pending; and every misc message published, on that
    tick or over the run, has every flag false. *)
Theorem misc_only_on_request (p : probe) (time_jetson time_iris : Q)
    (es : list event) (i : tick_input) :
  let s := fst (spin es (fst (init p time_jetson time_iris))) in
  snd (init p time_jetson time_iris) = None ->
  escaped (main_loop i s) = None ->
  publishes Misc (published (main_loop i s))
  = (if manual_update_requested s then 1%nat else 0%nat)
  /\ Forall says_no_misc (published (main_loop i s))
  /\ Forall says_no_misc (snd (spin es (fst (init p time_jetson time_iris)))).
Proof.
  intros s _ Hret.
  split; [|split; [apply main_loop_says_no_misc | apply spin_says_no_misc]].
  rewrite (main_loop_publishes i s Hret).
  set (s1 := refreshed (probed i) s).
  assert (Hd : differs Misc s1 = false).
  { unfold differs. cbn [category_differs].
    unfold s1. rewrite pull_new_message_values_previous.
    rewrite pull_new_message_values_misc.
    unfold s. rewrite (spin_previous_misc es _ (init_previous_misc p time_jetson time_iris)).
    reflexivity. }
  unfold due. rewrite Hd. cbn [orb].
  unfold s1. rewrite pull_new_message_values_manual.
  destruct (manual_update_requested s); reflexivity.
Qed.

Lemma misc_only_on_request_witness :
  snd (init quiet_probe 0 0) = None
  /\ escaped (main_loop (tick_at quiet_probe 1)
                (fst (spin [Iris_status 24; Update_requested]
                        (fst (init quiet_probe 0 0))))) = None
  /\ publishes Misc
       (published (main_loop (tick_at quiet_probe 1)
                     (fst (spin [Iris_status 24; Update_requested]
                             (fst (init quiet_probe 0 0)))))) = 1%nat.
Proof.
  assert (H0 : snd (init quiet_probe 0 0) = None) by (vm_compute; reflexivity).
  assert (H1 : escaped (main_loop (tick_at quiet_probe 1)
                          (fst (spin [Iris_status 24; Update_requested]
                                  (fst (init quiet_probe 0 0))))) = None)
    by (vm_compute; reflexivity).
  split; [exact H0|]. split; [exact H1|].
  pose proof (misc_only_on_request quiet_probe 0 0 [Iris_status 24; Update_requested]
                (tick_at quiet_probe 1)) as T.
  cbv zeta in T. destruct (T H0 H1) as (T1 & _).
  rewrite T1. vm_compute. reflexivity.
Defined.


(** *** Between two ticks *)

Lemma deliver_quiet (e : event) (s : node) :
  (forall i, e <> Timer i) ->
  published (deliver e s) = []
  /\ previous (node_after (deliver e s)) = previous s
  /\ subscriptions (node_after (deliver e s)) = subscriptions s
  /\ (manual_update_requested s = true ->
      manual_update_requested (node_after (deliver e s)) = true).
Proof.
  intro H. destruct e; [exfalso; apply (H i); reflexivity | ..];
    cbn [deliver published node_after]; repeat split; auto.
Qed.

(** X14.  Callbacks never publish: over any run of events without a tick
    nothing is published, the snapshot and the subscriptions stay as they
    are, and a manual request stays pending. *)
Theorem callbacks_publish_nothing (es : list event) :
  forall s,
    no_timer es = true ->
    snd (spin es s) = []
    /\ previous (fst (spin es s)) = previous s
    /\ subscriptions (fst (spin es s)) = subscriptions s
    /\ (manual_update_requested s = true ->
        manual_update_requested (fst (spin es s)) = true).
Proof.
  induction es as [|e es IH]; intros s H; [repeat split; auto|].
  cbn [no_timer forallb] in H. apply andb_true_iff in H. destruct H as (He & Hes).
  assert (Hq : forall i, e <> Timer i) by (intros i ->; discriminate He).
  destruct (deliver_quiet e s Hq) as (Q1 & Q2 & Q3 & Q4).
  destruct (IH (node_after (deliver e s)) Hes) as (I1 & I2 & I3 & I4).
  cbn [spin]. destruct (escaped (deliver e s)); cbn [fst snd].
  - repeat split; assumption.
  - rewrite Q1, I1, I2, I3, Q2, Q3. repeat split. intro Hm. apply I4, Q4, Hm.
Qed.

Lemma callbacks_publish_nothing_witness :
  no_timer [Update_requested; Iris_status 24; Gps_sentence Unparsable;
            Drive_status_left true true] = true
  /\ manual_update_requested
       (fst (spin [Update_requested; Iris_status 24; Gps_sentence Unparsable;
                   Drive_status_left true true] requested)) = true.
Proof.
  assert (H : no_timer [Update_requested; Iris_status 24; Gps_sentence Unparsable;
                        Drive_status_left true true] = true) by reflexivity.
  split; [exact H|].
  destruct (callbacks_publish_nothing _ requested H) as (_ & _ & _ & T).
  apply T. vm_compute. reflexivity.
Defined.

Lemma spin_cons (e : event) (es : list event) (s : node) :
  escaped (deliver e s) = None ->
  spin (e :: es) s =
  (fst (spin es (node_after (deliver e s))),
   published (deliver e s) ++ snd (spin es (node_after (deliver e s)))).
Proof. intro H. cbn [spin]. rewrite H. reflexivity. Qed.

Lemma deliver_timer (i : tick_input) (s : node) : deliver (Timer i) s = main_loop i s.
Proof. reflexivity. Qed.

Lemma spin_timer (i : tick_input) (es : list event) (s : node) :
  escaped (main_loop i s) = None ->
  spin (Timer i :: es) s =
  (fst (spin es (node_after (main_loop i s))),
   published (main_loop i s) ++ snd (spin es (node_after (main_loop i s)))).
Proof.
  intro H. rewrite <- deliver_timer in H. rewrite (spin_cons _ es s H), deliver_timer.
  reflexivity.
Qed.

Lemma spin_timer_raised (i : tick_input) (es : list event) (s : node) :
  escaped (main_loop i s) <> None ->
  spin (Timer i :: es) s = (refreshed (probed i) s, []).
Proof.
  intro H. cbn [spin]. rewrite deliver_timer, (main_loop_raises i s H). reflexivity.
Qed.

(** X15.  Every tick whose refresh returns leaves one subscription more:
    after [n] such ticks the node holds [n] subscriptions more than
    before.  A tick whose refresh raises leaves none. *)
Theorem subscriptions_grow_with_ticks (ticks : list tick_input) (s : node) :
  Forall (fun i => sensors_output (probed i) = None) ticks ->
  length (subscriptions (fst (spin (map Timer ticks) s)))
  = (length (subscriptions s) + length ticks)%nat
  /\ (forall i s', escaped (main_loop i s') <> None ->
                   subscriptions (node_after (main_loop i s')) = subscriptions s').
Proof.
  intro Hall. split.
  - revert s. induction Hall as [|i ticks Hi Hall IH]; intro s.
    + cbn. lia.
    + assert (Hret : escaped (main_loop i s) = None)
        by (apply main_loop_returns_iff; exact Hi).
      cbn [map]. rewrite (spin_timer i _ s Hret). cbn [fst].
      rewrite IH, (main_loop_subscriptions i s Hret),
        pull_new_message_values_subscriptions, Hi, length_app.
      cbn [length]. lia.
  - intros i s' H.
    rewrite (main_loop_raised_node i s' H), pull_new_message_values_subscriptions.
    destruct (sensors_output (probed i)) eqn:E; [reflexivity|].
    exfalso. apply H. apply main_loop_returns_iff. exact E.
Qed.

Lemma subscriptions_grow_with_ticks_witness :
  Forall (fun i => sensors_output (probed i) = None)
    [tick_at quiet_probe 1; tick_at seeing_probe 2]
  /\ length (subscriptions
               (fst (spin (map Timer [tick_at quiet_probe 1; tick_at seeing_probe 2])
                       started))) = 9%nat.
Proof.
  assert (H : Forall (fun i => sensors_output (probed i) = None)
                [tick_at quiet_probe 1; tick_at seeing_probe 2])
    by (repeat constructor).
  split; [exact H|].
  rewrite (proj1 (subscriptions_grow_with_ticks
                    [tick_at quiet_probe 1; tick_at seeing_probe 2] started H)).
  vm_compute. reflexivity.
Defined.

Lemma spin_nil (s : node) : spin [] s = (s, []).
Proof. reflexivity. Qed.

Lemma deliver_gps (data : nmea) (s : node) :
  deliver (Gps_sentence data) s =
  {| node_after := fst (set_gps_info data s); published := [];
     escaped := snd (set_gps_info data s) |}.
Proof. reflexivity. Qed.

Lemma set_gps_info_previous (data : nmea) (s : node) :
  previous (fst (set_gps_info data s)) = previous s.
Proof. reflexivity. Qed.

Lemma due_GPS (i : tick_input) (s : node) :
  due GPS i s = gps_differs (GPS_msg (current s)) (GPS_msg (previous s)).
Proof. reflexivity. Qed.

Lemma newly_connected_is_published (i : tick_input) (s : node) :
  escaped (main_loop i s) = None ->
  gps_connected (GPS_msg (current s)) = true ->
  gps_connected (GPS_msg (previous s)) = false ->
  publishes GPS (published (main_loop i s)) = 1%nat.
Proof.
  intros Hret Hc Hp.
  apply (publishes_1_due GPS i s Hret).
  rewrite due_GPS, pull_new_message_values_previous, pull_new_message_values_GPS.
  unfold gps_differs. rewrite Hc, Hp. reflexivity.
Qed.

Lemma snd_pair (A B : Type) (a : A) (b : B) : snd (a, b) = b.
Proof. reflexivity. Qed.

Lemma spin_then_tick (e : event) (i : tick_input) (s : node) :
  escaped (deliver e s) = None ->
  published (deliver e s) = [] ->
  escaped (main_loop i (node_after (deliver e s))) = None ->
  snd (spin [e; Timer i] s) = published (main_loop i (node_after (deliver e s))).
Proof.
  intros He Hp Hret.
  rewrite (spin_cons _ _ _ He), Hp, (spin_timer _ _ _ Hret), spin_nil.
  rewrite !snd_pair, app_nil_r. reflexivity.
Qed.

Lemma node_after_gps (data : nmea) (s : node) :
  node_after (deliver (Gps_sentence data) s) = fst (set_gps_info data s).
Proof. reflexivity. Qed.

(** X16.  The first GPS sentence is reported: if the snapshot says not
    connected and a sentence arrives (and its handler does not raise), the
    next tick, if its refresh returns, publishes the GPS record exactly
    once, saying connected. *)
Theorem first_sentence_is_published (data : nmea) (i : tick_input) (s : node) :
  gps_connected (GPS_msg (previous s)) = false ->
  escaped (deliver (Gps_sentence data) s) = None ->
  escaped (main_loop i (node_after (deliver (Gps_sentence data) s))) = None ->
  publishes GPS (snd (spin [Gps_sentence data; Timer i] s)) = 1%nat
  /\ Forall gps_reports_connected (snd (spin [Gps_sentence data; Timer i] s)).
Proof.
  intros Hp He Hret.
  rewrite (spin_then_tick _ i _ He (eq_refl []) Hret).
  rewrite node_after_gps in *.
  pose proof (set_gps_info_connected data s) as Hc.
  split.
  - apply newly_connected_is_published; [exact Hret | exact Hc|].
    rewrite set_gps_info_previous. exact Hp.
  - apply main_loop_gps_connected. exact Hc.
Qed.

Lemma first_sentence_is_published_witness :
  gps_connected (GPS_msg (previous started)) = false
  /\ escaped (deliver (Gps_sentence Unparsable) started) = None
  /\ escaped (main_loop (tick_at quiet_probe 1)
                (node_after (deliver (Gps_sentence Unparsable) started))) = None
  /\ publishes GPS (snd (spin [Gps_sentence Unparsable; Timer (tick_at quiet_probe 1)]
                           started)) = 1%nat.
Proof.
  assert (H1 : gps_connected (GPS_msg (previous started)) = false)
    by (vm_compute; reflexivity).
  assert (H2 : escaped (deliver (Gps_sentence Unparsable) started) = None)
    by reflexivity.
  assert (H3 : escaped (main_loop (tick_at quiet_probe 1)
                          (node_after (deliver (Gps_sentence Unparsable) started))) = None)
    by (vm_compute; reflexivity).
  split; [exact H1|]. split; [exact H2|]. split; [exact H3|].
  exact (proj1 (first_sentence_is_published Unparsable (tick_at quiet_probe 1)
                  started H1 H2 H3)).
Defined.

(** X17.  A tick publishes in the order of its blocks (battery, camera,
    Jetson, controller link, wheel, GPS, misc), each category at most
    once. *)
Theorem publications_follow_blocks (i : tick_input) (s : node) :
  map category_of (published (main_loop i s))
  = filter (fun c => (0 <? publishes c (published (main_loop i s)))%nat) blocks
  /\ NoDup (map category_of (published (main_loop i s))).
Proof.
  assert (H : map category_of (published (main_loop i s))
              = filter (fun c => (0 <? publishes c (published (main_loop i s)))%nat)
                       blocks).
  { destruct (main_loop_cases i s) as [Hret|(_ & Hnone & _)];
      [|rewrite Hnone; reflexivity].
    assert (Hf : forall c, (0 <? publishes c (published (main_loop i s)))%nat
                           = due c i (refreshed (probed i) s)).
    { intro c. rewrite (main_loop_publishes i s Hret). destruct (due c i _); reflexivity. }
    rewrite (filter_ext _ _ Hf), (main_loop_published i s Hret).
    generalize (refreshed (probed i) s). intro s1.
    unfold blocks. cbn [flat_map filter].
    destruct (due Battery i s1), (due Camera i s1), (due Jetson i s1),
      (due FrSky i s1), (due Wheel i s1), (due GPS i s1), (due Misc i s1);
      reflexivity. }
  split; [exact H|].
  rewrite H. apply NoDup_filter. apply blocks_NoDup.
Qed.

(** *** The sentences of the GPS *)

(** X18.  The GPS handler returns for a sentence that does not parse, for
    a sentence of another type, for a GGA sentence whose three fields
    convert and for a VTG sentence whose track is [None] or converts,
    whatever its speed.  It lets an exception out for a parsed object
    without [sentence_type], for a GGA sentence with a field that does not
    convert, and for a VTG sentence whose track is text that is no number.
    Whatever the sentence, it says connected and touches the GPS record
    only: the snapshot, the other six records, the manual request and the
    subscriptions are left alone. *)
Theorem sentences_that_raise (data : nmea) (s : node) :
  let r := set_gps_info data s in
  (data = Unparsable \/ data = Other_sentence -> snd r = None)
  /\ (data = No_sentence_type -> snd r = Some AttributeError)
  /\ (forall q n h, data = GGA q n h ->
      (snd r = None <-> exists q' n' h', q = Holds q' /\ n = Holds n' /\ h = Holds h'))
  /\ (forall v t, data = VTG v t ->
      (snd r = None <-> t <> Malformed)
      /\ (t = Malformed -> snd r = Some ValueError))
  /\ gps_connected (GPS_msg (current (fst r))) = true
  /\ previous (fst r) = previous s
  /\ (forall c, c <> GPS -> message_of c (current (fst r)) = message_of c (current s))
  /\ manual_update_requested (fst r) = manual_update_requested s
  /\ subscriptions (fst r) = subscriptions s.
Proof.
  intro r. unfold r.
  split; [|split; [|split; [|split; [|split; [|split; [|split; [|split]]]]]]].
  - intros [-> | ->]; reflexivity.
  - intros ->. reflexivity.
  - intros q n h ->. unfold set_gps_info, gps_info. cbn [snd]. split.
    + destruct q as [|q|], n as [|n|], h as [|h|]; cbn; intro H;
        try discriminate H. do 3 eexists. repeat split.
    + intros (q' & n' & h' & -> & -> & ->). reflexivity.
  - intros v t ->. unfold set_gps_info, gps_info. cbn [snd].
    destruct v as [|v|], t as [|t|]; cbn; repeat split;
      try reflexivity; try discriminate; intro H; try discriminate H;
      try (exfalso; apply H; reflexivity).
  - apply set_gps_info_connected.
  - reflexivity.
  - intros c Hc. destruct c; try reflexivity. contradiction Hc. reflexivity.
  - reflexivity.
  - reflexivity.
Qed.

(** X19.  A GGA sentence is applied field by field up to the first field
    that does not convert: the fix flag is set as soon as the quality
    converts, the satellite count only if the quality did, the dilution
    only if all three did; speed and heading are never touched. *)
Theorem gga_partial_update (q n : field Z) (h : field float) (s : node) :
  let m := GPS_msg (current s) in
  let m' := GPS_msg (current (fst (set_gps_info (GGA q n h) s))) in
  (forall q', q = Holds q' -> gps_fix m' = int_ne q' 0)
  /\ (fails_to_convert q -> gps_fix m' = gps_fix m)
  /\ (forall q' n', q = Holds q' -> n = Holds n' -> num_satellites m' = n')
  /\ (fails_to_convert q \/ fails_to_convert n -> num_satellites m' = num_satellites m)
  /\ (fails_to_convert q \/ fails_to_convert n \/ fails_to_convert h ->
      horizontal_dilution m' = horizontal_dilution m)
  /\ kmph m' = kmph m /\ gps_heading m' = gps_heading m.
Proof.
  cbv zeta. unfold set_gps_info, fails_to_convert. cbn [fst snd].
  destruct s as [mu cur prev tj ti subs]. destruct cur as [bm cm wm fm gm jm mm].
  destruct q as [|q|], n as [|n|], h as [|h|]; cbn;
    repeat split; intros;
    repeat match goal with
           | H : Holds _ = Holds _ |- _ => injection H as H; subst
           | H : _ \/ _ |- _ => destruct H
           | H : exists _, _ |- _ => destruct H
           | H : inl _ = inr _ |- _ => discriminate H
           | H : Holds _ = Missing |- _ => discriminate H
           | H : Holds _ = Malformed |- _ => discriminate H
           | H : Missing = Holds _ |- _ => discriminate H
           | H : Malformed = Holds _ |- _ => discriminate H
           end; reflexivity.
Qed.

(** A quality that converts and a satellite count that is missing: the
    fix flag is set, and the handler raises [TypeError]. *)
Example gga_without_satellites :
  snd (set_gps_info (GGA (Holds 1%Z) Missing (Holds 1%float)) started) = Some TypeError
  /\ gps_fix (GPS_msg (current (fst (set_gps_info (GGA (Holds 1%Z) Missing (Holds 1%float))
                                      started)))) = true
  /\ num_satellites (GPS_msg (current (fst (set_gps_info
                                              (GGA (Holds 1%Z) Missing (Holds 1%float))
                                              started)))) = 0%Z.
Proof. vm_compute. repeat split. Qed.

End SystemStatusesFacts.
